(** * UniTune worker: request admission, metadata cache and share-link decoding

    A shallow embedding of the core of the worker, module by module as
    [worker.js] imports them:
    - [security/rate_limiter.js]  : [RateLimiter.checkLimit], [getClientIp];
    - [utils/bot_detector.js]     : [isSocialMediaBot];
    - [utils/metadata_fetcher.js] : [fetchAndCacheMetadata];
    - [utils/url_validator.js]    : [reconstructMusicUrl];
    - [handlers/share_link_handler.js] : [handleShareLink].

    Conventions.
    - JavaScript numbers that only ever hold integers (millisecond clock
      readings, token counts, TTLs, status codes) are [Z].  [Math.floor] of a
      quotient by a positive constant is [Z.div], which rounds towards minus
      infinity as [Math.floor] does.
    - Strings are byte strings ([string], one [ascii] per code unit).  Header
      values, URL path segments and the output of [atob] only contain code
      units below 256, so nothing is lost on the paths modelled here.
    - Code that talks to the platform (the KV bindings, [fetch], the clock)
      runs in a state-and-exception monad over an arbitrary world [W]; every
      call of an external collaborator is appended to a trace of events.
    - [log(config, ...)] only writes to the console and is left out. *)

From Stdlib Require Import ZArith Lia List String Ascii Bool.
From stdpp Require Import base gmap strings list.

Local Open Scope string_scope.
Local Open Scope list_scope.
Local Open Scope Z_scope.

(** ** Results of calls that may throw *)

Inductive Result (A : Type) : Type :=
| Ok (a : A)
| Throw.
Arguments Ok {A} a.
Arguments Throw {A}.

(** ** Data model *)

(** [RateLimitState]: the object kept under [ratelimit:{ip}]. *)
Record RateLimitState : Type := mkState {
  tokens : Z;
  lastRefill : Z;
  requestCount : Z
}.

(** The text held by the rate-limit namespace, represented by what
    [JSON.parse] makes of it.  [JSON.stringify] of a state is the text that
    parses back to that state. *)
Inductive RateText : Type :=
| TextOfState (s : RateLimitState)   (* JSON.stringify(s) *)
| TextEmpty                          (* the empty string, which is falsy *)
| TextMalformed.                     (* non-empty text that is not JSON *)

(** JSON values, as far as the worker looks into them. *)
Inductive Json : Type :=
| JNull
| JBool (b : bool)
| JNum (n : Z)
| JStr (s : string)
| JObj (fields : list (string * string)).

(** [CachedMetadata]: the object kept under [metadata:{encodedId}], in the
    shape [fetchAndCacheMetadata] writes it, the only writer of that
    namespace. *)
Record CachedMetadata : Type := mkCached {
  data : Json;
  timestamp : Z
}.

Record HttpResponse : Type := mkResponse {
  ok : bool;
  status : Z;
  json : Result Json            (* what [response.json()] resolves to *)
}.

(** [request.headers.get(name)]: [None] is [null]. *)
Record Request : Type := mkRequest {
  headers_get : string -> option string
}.

(** ** External calls and their trace *)

Inductive Event : Type :=
| EvGet (key : string)
| EvPutRate (key : string) (value : RateText) (expirationTtl : Z)
| EvPutCache (key : string) (value : CachedMetadata) (expirationTtl : Z)
| EvFetch (url : string) (userAgent : string).

(** A KV namespace binding over a world [W] holding values of type [V]. *)
Record KVNamespace (W V : Type) : Type := mkKV {
  kv_get : string -> W -> Result (option V) * W;
  kv_put : string -> V -> Z -> W -> Result unit * W
}.
Arguments kv_get {W V} _ _ _.
Arguments kv_put {W V} _ _ _ _ _.
Arguments mkKV {W V} _ _.

(** The runtime: the clock and [fetch]. *)
Record Platform (W : Type) : Type := mkPlatform {
  date_now : W -> Z;
  fetch : string -> string -> W -> Result HttpResponse * W
}.
Arguments date_now {W} _ _.
Arguments fetch {W} _ _ _ _.
Arguments mkPlatform {W} _ _.

(** The machine state threaded through a request: the world and the trace of
    external calls made so far. *)
Record Machine (W : Type) : Type := mkMachine {
  world : W;
  trace : list Event
}.
Arguments mkMachine {W} _ _.
Arguments world {W} _.
Arguments trace {W} _.

Definition M (W A : Type) : Type := Machine W -> Result A * Machine W.

Definition ret {W A} (a : A) : M W A := fun m => (Ok a, m).

Definition throw {W A} : M W A := fun m => (Throw, m).

Definition bind {W A B} (c : M W A) (k : A -> M W B) : M W B :=
  fun m => match c m with
           | (Ok a, m') => k a m'
           | (Throw, m') => (Throw, m')
           end.

(** [try { c } catch (e) { h }] *)
Definition try_catch {W A} (c : M W A) (h : M W A) : M W A :=
  fun m => match c m with
           | (Ok a, m') => (Ok a, m')
           | (Throw, m') => h m'
           end.

Notation "'let!' x ':=' c 'in' k" := (bind c (fun x => k))
  (at level 10, x name, c at level 100, k at level 200).

(** An external call: run it on the world and record the event. *)
Definition call {W A} (ev : Event) (f : W -> Result A * W) : M W A :=
  fun m => let (r, w') := f (world m) in
           (r, mkMachine w' (trace m ++ [ev])).

Definition Date_now {W} (P : Platform W) : M W Z :=
  fun m => (Ok (date_now P (world m)), m).

(** ** JavaScript string operations used by the worker *)

(** [!s] is false exactly for the non-empty strings. *)
Definition truthy_string (s : string) : bool :=
  match s with
  | EmptyString => false
  | String _ _ => true
  end.

Definition in_range (lo hi : N) (c : ascii) : bool :=
  ((lo <=? N_of_ascii c) && (N_of_ascii c <=? hi))%N.

(** [toLowerCase] on a code unit below 256: A-Z, and the Latin-1 capitals
    U+00C0..U+00D6 and U+00D8..U+00DE, move up by 32. *)
Definition lower_char (c : ascii) : ascii :=
  if in_range 65 90 c || in_range 192 214 c || in_range 216 222 c
  then ascii_of_N (N_of_ascii c + 32)
  else c.

Fixpoint toLowerCase (s : string) : string :=
  match s with
  | EmptyString => EmptyString
  | String c r => String (lower_char c) (toLowerCase r)
  end.

(** [s.startsWith(p)] *)
Fixpoint startsWith (s p : string) {struct p} : bool :=
  match p, s with
  | EmptyString, _ => true
  | String a p', String b s' => Ascii.eqb a b && startsWith s' p'
  | String _ _, EmptyString => false
  end.

(** [s.includes(p)] *)
Fixpoint includes (s p : string) : bool :=
  startsWith s p ||
  match s with
  | EmptyString => false
  | String _ r => includes r p
  end.

(** [s.split(sep)] for a one-character separator. *)
Fixpoint split (sep : ascii) (s : string) : list string :=
  match s with
  | EmptyString => [EmptyString]
  | String c r =>
    if Ascii.eqb c sep then EmptyString :: split sep r
    else match split sep r with
         | h :: t => String c h :: t
         | [] => [String c EmptyString]
         end
  end.

(** [parts.join(sep)] *)
Fixpoint join (sep : string) (parts : list string) : string :=
  match parts with
  | [] => EmptyString
  | [p] => p
  | p :: rest => p +:+ sep +:+ join sep rest
  end.

(** [s.replace(/a/g, b)] for single characters. *)
Fixpoint replace_all (a b : ascii) (s : string) : string :=
  match s with
  | EmptyString => EmptyString
  | String c r => String (if Ascii.eqb c a then b else c) (replace_all a b r)
  end.

(** [s.substring(n)] *)
Fixpoint substring_from (n : nat) (s : string) : string :=
  match n, s with
  | O, _ => s
  | S n', String _ r => substring_from n' r
  | S _, EmptyString => EmptyString
  end.

(** The code units [String.prototype.trim] removes, among those below 256:
    TAB, LF, VT, FF, CR, SPACE and NBSP. *)
Definition is_js_space (c : ascii) : bool :=
  match N_of_ascii c with
  | 9%N | 10%N | 11%N | 12%N | 13%N | 32%N | 160%N => true
  | _ => false
  end.

Fixpoint trimStart (s : string) : string :=
  match s with
  | String c r => if is_js_space c then trimStart r else s
  | EmptyString => EmptyString
  end.

Fixpoint string_rev_onto (s acc : string) : string :=
  match s with
  | String c r => string_rev_onto r (String c acc)
  | EmptyString => acc
  end.

Definition string_rev (s : string) : string := string_rev_onto s EmptyString.

Definition trimEnd (s : string) : string := string_rev (trimStart (string_rev s)).

Definition trim (s : string) : string := trimEnd (trimStart s).

(** ** utils/bot_detector.js *)

Module BotDetector.

Definition botPatterns : list string :=
  [ "facebookexternalhit";
    "WhatsApp";
    "Twitterbot";
    "TelegramBot";
    "Slackbot";
    "LinkedInBot";
    "Discordbot";
    "SkypeUriPreview";
    "Snapchat";
    "Pinterest";
    "Googlebot";
    "bingbot" ].

(** [userAgent] is [None] when the caller passes [null] or [undefined]. *)
Definition isSocialMediaBot (userAgent : option string) : bool :=
  match userAgent with
  | None => false
  | Some ua =>
    if negb (truthy_string ua) then false
    else
      let lowerUserAgent := toLowerCase ua in
      existsb (fun pattern => includes lowerUserAgent (toLowerCase pattern))
              botPatterns
  end.

End BotDetector.

(** ** security/rate_limiter.js *)

Module RateLimiter.

Definition MAX_TOKENS : Z := 60.
Definition REFILL_RATE : Z := 1.
Definition WINDOW_SIZE : Z := 60.

Record LimitResult : Type := mkLimit {
  allowed : bool;
  retryAfter : option Z
}.

Definition allow : LimitResult := mkLimit true None.

(** [if (stateJson)] on the text read from KV. *)
Definition truthy_text (t : RateText) : bool :=
  match t with
  | TextEmpty => false
  | _ => true
  end.

Definition JSON_parse {W} (t : RateText) : M W RateLimitState :=
  match t with
  | TextOfState s => ret s
  | _ => throw
  end.

Definition JSON_stringify (s : RateLimitState) : RateText := TextOfState s.

(** [Math.floor(((now - state.lastRefill) / 1000) * REFILL_RATE)] *)
Definition tokensToAdd (now : Z) (state : RateLimitState) : Z :=
  ((now - lastRefill state) * REFILL_RATE) / 1000.

(** The refill step: lines "if (tokensToAdd > 0) { ... }". *)
Definition refill (now : Z) (state : RateLimitState) : RateLimitState :=
  if 0 <? tokensToAdd now state
  then mkState (Z.min MAX_TOKENS (tokens state + tokensToAdd now state))
               now
               (requestCount state)
  else state.

(** [Math.ceil(a / b)] for integers [a] and positive [b]. *)
Definition ceil_div (a b : Z) : Z := - ((- a) / b).

Section CheckLimit.
Context {W : Type} (P : Platform W).

Definition checkLimit (clientIp : string)
    (kv : option (KVNamespace W RateText)) : M W LimitResult :=
  match kv with
  | None => ret allow
  | Some kv =>
    if negb (truthy_string clientIp) then ret allow
    else
      let key := "ratelimit:" +:+ clientIp in
      let! now := Date_now P in
      try_catch
        (let! stateJson := call (EvGet key) (kv_get kv key) in
         let! state0 :=
           match stateJson with
           | Some t => if truthy_text t then JSON_parse t
                       else ret (mkState MAX_TOKENS now 0)
           | None => ret (mkState MAX_TOKENS now 0)
           end in
         let state := refill now state0 in
         if 1 <=? tokens state then
           let state' := mkState (tokens state - 1) (lastRefill state)
                                 (requestCount state + 1) in
           let! _ := call (EvPutRate key (JSON_stringify state') (WINDOW_SIZE * 2))
                          (kv_put kv key (JSON_stringify state') (WINDOW_SIZE * 2)) in
           ret allow
         else
           let tokensNeeded := 1 in
           let retryAfter := ceil_div tokensNeeded REFILL_RATE in
           let! _ := call (EvPutRate key (JSON_stringify state) (WINDOW_SIZE * 2))
                          (kv_put kv key (JSON_stringify state) (WINDOW_SIZE * 2)) in
           ret (mkLimit false (Some retryAfter)))
        (ret allow)
  end.

End CheckLimit.

Definition truthy_header (h : option string) : bool :=
  match h with
  | Some v => truthy_string v
  | None => false
  end.

Definition getClientIp (request : Request) : string :=
  let cfConnectingIp := headers_get request "CF-Connecting-IP" in
  if truthy_header cfConnectingIp then from_option id "" cfConnectingIp
  else
    let xForwardedFor := headers_get request "X-Forwarded-For" in
    if truthy_header xForwardedFor
    then trim (hd "" (split "," (from_option id "" xForwardedFor)))
    else
      let xRealIp := headers_get request "X-Real-IP" in
      if truthy_header xRealIp then from_option id "" xRealIp
      else "unknown".

End RateLimiter.

(** ** Values handed around as [musicUrl] *)

(** [reconstructMusicUrl] looks a key up in an object literal, so besides
    the strings of its table it can return a member that the literal inherits
    from [Object.prototype]. *)
Inductive JsVal : Type :=
| VStr (s : string)
| VProto (name : string).

Definition Object_prototype_members : list string :=
  [ "constructor"; "__defineGetter__"; "__defineSetter__"; "hasOwnProperty";
    "__lookupGetter__"; "__lookupSetter__"; "isPrototypeOf";
    "propertyIsEnumerable"; "toString"; "valueOf"; "__proto__";
    "toLocaleString" ].

(** [String(v)] *)
Definition js_to_string (v : JsVal) : string :=
  match v with
  | VStr s => s
  | VProto name =>
    if String.eqb name "__proto__" then "[object Object]"
    else if String.eqb name "constructor" then "function Object() { [native code] }"
    else "function " +:+ name +:+ "() { [native code] }"
  end.

Definition truthy_val (v : JsVal) : bool :=
  match v with
  | VStr s => truthy_string s
  | VProto _ => true
  end.

(** [obj[key]] on an object literal with the given own properties. *)
Fixpoint own_property (props : list (string * string)) (key : string) : option string :=
  match props with
  | [] => None
  | (k, v) :: rest => if String.eqb k key then Some v else own_property rest key
  end.

Definition property_get (props : list (string * string)) (key : string) : option JsVal :=
  match own_property props key with
  | Some v => Some (VStr v)
  | None =>
    if existsb (String.eqb key) Object_prototype_members then Some (VProto key)
    else None
  end.

(** [v || null] *)
Definition or_null (v : option JsVal) : option JsVal :=
  match v with
  | Some x => if truthy_val x then Some x else None
  | None => None
  end.

(** [!metadata] looks at the truthiness of a JSON value. *)
Definition truthy_json (j : Json) : bool :=
  match j with
  | JNull => false
  | JBool b => b
  | JNum n => negb (n =? 0)
  | JStr s => truthy_string s
  | JObj _ => true
  end.

(** [encodeURIComponent] on code units below 256. *)
Definition hex_digit (n : N) : ascii :=
  if (n <? 10)%N then ascii_of_N (n + 48) else ascii_of_N (n + 55).

Definition percent (n : N) : string :=
  String "%" (String (hex_digit (n / 16)) (String (hex_digit (n mod 16)) EmptyString)).

Definition is_unreserved (c : ascii) : bool :=
  in_range 65 90 c || in_range 97 122 c || in_range 48 57 c ||
  includes "-_.!~*'()" (String c EmptyString).

Fixpoint encodeURIComponent (s : string) : string :=
  match s with
  | EmptyString => EmptyString
  | String c r =>
    (if is_unreserved c then String c EmptyString
     else if (N_of_ascii c <? 128)%N then percent (N_of_ascii c)
     else percent (192 + N_of_ascii c / 64) +:+ percent (128 + N_of_ascii c mod 64))
    +:+ encodeURIComponent r
  end.

(** ** config/environment.js and the bindings *)

Record Config : Type := mkConfig {
  unituneApiEndpoint : string;
  debugLogging : bool
}.

Record Env (W : Type) : Type := mkEnv {
  RATE_LIMIT : option (KVNamespace W RateText);
  SONG_CACHE : option (KVNamespace W CachedMetadata)
}.
Arguments mkEnv {W} _ _.
Arguments RATE_LIMIT {W} _.
Arguments SONG_CACHE {W} _.

(** ** utils/metadata_fetcher.js *)

Module MetadataFetcher.

Definition WORKER_USER_AGENT : string := "UniTune-Worker/1.1.0 (https://unitune.art)".

Section FetchAndCache.
Context {W : Type} (P : Platform W).

(** The cache lookup at the head of [fetchAndCacheMetadata]: [Some d] is the
    early [return cached.data]. *)
Definition cache_lookup (cacheKey : string) (env : Env W) : M W (option Json) :=
  match SONG_CACHE env with
  | Some kv =>
    let! cached := call (EvGet cacheKey) (kv_get kv cacheKey) in
    match cached with
    | Some c =>
      if negb (timestamp c =? 0) then
        let! now := Date_now P in
        if now - timestamp c <? 86400000 then ret (Some (data c)) else ret None
      else ret None
    | None => ret None
    end
  | None => ret None
  end.

Definition response_json (response : HttpResponse) : M W Json :=
  match json response with
  | Ok j => ret j
  | Throw => throw
  end.

(** The part after the cache lookup: "Not in cache, fetch from API". *)
Definition fetch_from_api (musicUrl : JsVal) (cacheKey : string)
    (config : Config) (env : Env W) : M W Json :=
  let apiUrl := unituneApiEndpoint config +:+ "?url=" +:+
                encodeURIComponent (js_to_string musicUrl) in
  try_catch
    (let! response := call (EvFetch apiUrl WORKER_USER_AGENT)
                           (fetch P apiUrl WORKER_USER_AGENT) in
     if ok response then
       let! metadata := response_json response in
       let! _ :=
         match SONG_CACHE env with
         | Some kv =>
           if truthy_json metadata then
             let! now := Date_now P in
             call (EvPutCache cacheKey (mkCached metadata now) 86400)
                  (kv_put kv cacheKey (mkCached metadata now) 86400)
           else ret tt
         | None => ret tt
         end in
       ret metadata
     else ret JNull)
    (ret JNull).

Definition fetchAndCacheMetadata (musicUrl : JsVal) (encodedPath : string)
    (config : Config) (env : Env W) : M W Json :=
  let cacheKey := "metadata:" +:+ encodedPath in
  let! hit := cache_lookup cacheKey env in
  match hit with
  | Some d => ret d
  | None => fetch_from_api musicUrl cacheKey config env
  end.

End FetchAndCache.

End MetadataFetcher.

(** ** utils/url_validator.js *)

Module UrlValidator.

Definition reconstructMusicUrl (platform type id : string) : option JsVal :=
  let urls :=
    [ ("spotify", "https://open.spotify.com/" +:+ type +:+ "/" +:+ id);
      ("tidal", "https://tidal.com/browse/" +:+ type +:+ "/" +:+ id);
      ("applemusic", "https://music.apple.com/us/song/" +:+ id);
      ("youtubemusic", "https://music.youtube.com/watch?v=" +:+ id);
      ("youtube", "https://youtube.com/watch?v=" +:+ id);
      ("deezer", "https://www.deezer.com/" +:+ type +:+ "/" +:+ id);
      ("amazonmusic", "https://music.amazon.com/tracks/" +:+ id) ] in
  or_null (property_get urls (toLowerCase platform)).

End UrlValidator.

(** ** Base64

    [atob] is the platform's forgiving-base64 decoder (WHATWG Infra): ASCII
    whitespace is dropped, one or two trailing [=] are removed when the length
    is a multiple of four, a length of 1 modulo 4 or a character outside the
    alphabet is an error, and the bits left over in a final group of two or
    three characters are discarded. *)

Module Base64.

(** Six bits, most significant first. *)
Inductive Sextet : Type := Sx (b5 b4 b3 b2 b1 b0 : bool).

Definition N_of_sextet (s : Sextet) : N :=
  match s with
  | Sx b5 b4 b3 b2 b1 b0 => N_of_ascii (Ascii b0 b1 b2 b3 b4 b5 false false)
  end.

Definition sextet_of_N (n : N) : Sextet :=
  match ascii_of_N n with
  | Ascii b0 b1 b2 b3 b4 b5 _ _ => Sx b5 b4 b3 b2 b1 b0
  end.

(** The alphabet: A-Z, a-z, 0-9, [+], [/]. *)
Definition char_of_sextet (s : Sextet) : ascii :=
  let n := N_of_sextet s in
  if (n <? 26)%N then ascii_of_N (n + 65)
  else if (n <? 52)%N then ascii_of_N (n + 71)
  else if (n <? 62)%N then ascii_of_N (n - 4)
  else if (n =? 62)%N then "+"%char
  else "/"%char.

Definition sextet_of_char (c : ascii) : option Sextet :=
  let n := N_of_ascii c in
  if in_range 65 90 c then Some (sextet_of_N (n - 65))
  else if in_range 97 122 c then Some (sextet_of_N (n - 71))
  else if in_range 48 57 c then Some (sextet_of_N (n + 4))
  else if (n =? 43)%N then Some (sextet_of_N 62)
  else if (n =? 47)%N then Some (sextet_of_N 63)
  else None.

Fixpoint sextets_of_chars (l : list ascii) : option (list Sextet) :=
  match l with
  | [] => Some []
  | c :: r =>
    match sextet_of_char c, sextets_of_chars r with
    | Some s, Some ss => Some (s :: ss)
    | _, _ => None
    end
  end.

(** Groups of four sextets give three bytes; a final group of three gives
    two bytes, of two gives one byte. *)
Fixpoint decode_groups (l : list Sextet) : list ascii :=
  match l with
  | Sx a7 a6 a5 a4 a3 a2 :: Sx a1 a0 b7 b6 b5 b4 ::
    Sx b3 b2 b1 b0 c7 c6 :: Sx c5 c4 c3 c2 c1 c0 :: r =>
      Ascii a0 a1 a2 a3 a4 a5 a6 a7 :: Ascii b0 b1 b2 b3 b4 b5 b6 b7 ::
      Ascii c0 c1 c2 c3 c4 c5 c6 c7 :: decode_groups r
  | [Sx a7 a6 a5 a4 a3 a2; Sx a1 a0 b7 b6 b5 b4; Sx b3 b2 b1 b0 _ _] =>
      [Ascii a0 a1 a2 a3 a4 a5 a6 a7; Ascii b0 b1 b2 b3 b4 b5 b6 b7]
  | [Sx a7 a6 a5 a4 a3 a2; Sx a1 a0 _ _ _ _] =>
      [Ascii a0 a1 a2 a3 a4 a5 a6 a7]
  | _ => []
  end.

Definition is_ascii_whitespace (c : ascii) : bool :=
  match N_of_ascii c with
  | 9%N | 10%N | 12%N | 13%N | 32%N => true
  | _ => false
  end.

(** Remove one or two trailing [=]. *)
Definition strip_padding (l : list ascii) : list ascii :=
  match rev l with
  | "="%char :: "="%char :: r => rev r
  | "="%char :: r => rev r
  | _ => l
  end.

Definition atob (data : string) : Result string :=
  let d := List.filter (fun c => negb (is_ascii_whitespace c))
                      (list_ascii_of_string data) in
  let d := if (length d mod 4 =? 0)%nat then strip_padding d else d in
  if (length d mod 4 =? 1)%nat then Throw
  else match sextets_of_chars d with
       | Some ss => Ok (string_of_list_ascii (decode_groups ss))
       | None => Throw
       end.

(** The encoder is not part of the worker: share links are made by the client
    application.  What the decoder is measured against is the URL-safe Base64
    encoding of the text, with or without [=] padding (the sample identifiers
    come in both forms): standard Base64 (RFC 4648) with [+] and [/] written
    [-] and [_]. *)
Fixpoint encode_groups (l : list ascii) : list Sextet :=
  match l with
  | Ascii a0 a1 a2 a3 a4 a5 a6 a7 :: Ascii b0 b1 b2 b3 b4 b5 b6 b7 ::
    Ascii c0 c1 c2 c3 c4 c5 c6 c7 :: r =>
      Sx a7 a6 a5 a4 a3 a2 :: Sx a1 a0 b7 b6 b5 b4 ::
      Sx b3 b2 b1 b0 c7 c6 :: Sx c5 c4 c3 c2 c1 c0 :: encode_groups r
  | [Ascii a0 a1 a2 a3 a4 a5 a6 a7; Ascii b0 b1 b2 b3 b4 b5 b6 b7] =>
      [Sx a7 a6 a5 a4 a3 a2; Sx a1 a0 b7 b6 b5 b4; Sx b3 b2 b1 b0 false false]
  | [Ascii a0 a1 a2 a3 a4 a5 a6 a7] =>
      [Sx a7 a6 a5 a4 a3 a2; Sx a1 a0 false false false false]
  | [] => []
  end.

(** One [=] for each byte missing from the last group of three. *)
Fixpoint padding_for (l : list ascii) : list ascii :=
  match l with
  | _ :: _ :: _ :: r => padding_for r
  | [_; _] => ["="%char]
  | [_] => ["="%char; "="%char]
  | [] => []
  end.

Definition base64_chars (pad : bool) (bytes : list ascii) : list ascii :=
  map char_of_sextet (encode_groups bytes) ++
  (if pad then padding_for bytes else []).

Definition base64url_encode (pad : bool) (text : string) : string :=
  replace_all "/" "_"
    (replace_all "+" "-"
       (string_of_list_ascii (base64_chars pad (list_ascii_of_string text)))).

End Base64.

(** ** handlers/share_link_handler.js *)

Module ShareLinkHandler.
Import Base64 UrlValidator MetadataFetcher BotDetector.

Record Response : Type := mkHttp {
  resp_status : Z;
  resp_body : string
}.

(** [while (padded.length % 4 !== 0) padded += '='] *)
Definition pad4 (s : string) : string :=
  s +:+ string_of_list_ascii
          (repeat "="%char ((4 - String.length s mod 4) mod 4)%nat).

(** What the [try] block of [handleShareLink] leaves. *)
Inductive Decoded : Type :=
| DecodeThrew                      (* [atob] threw: the [catch] clause answers *)
| Unsupported (platform : string)  (* answered inside the block *)
| MusicUrl (url : option JsVal).   (* the block ended; [None] is [null] *)

Definition decode_block (pathAfterS : string) : Decoded :=
  let padded := pad4 pathAfterS in
  match atob (replace_all "_" "/" (replace_all "-" "+" padded)) with
  | Throw => DecodeThrew
  | Ok decoded =>
    if includes decoded ":" && negb (startsWith decoded "http") then
      let parts := split ":" decoded in
      if (3 <=? length parts)%nat then
        let platform := nth 0 parts "" in
        let type := nth 1 parts "" in
        let id := join ":" (skipn 2 parts) in
        match reconstructMusicUrl platform type id with
        | Some musicUrl => MusicUrl (Some musicUrl)
        | None => Unsupported platform
        end
      else MusicUrl None
    else MusicUrl None
  end.

Section Handler.
Context {W : Type} (P : Platform W).
Context (getErrorPage : string -> string).
Context (getServerSideRenderedPage getClientSideLoadingPage :
           JsVal -> Json -> Config -> Response).

(** [addSecurityHeaders(new Response(getErrorPage(message), {status}))]:
    the headers are not modelled, the status is kept. *)
Definition error_response (message : string) (code : Z) : Response :=
  mkHttp code (getErrorPage message).

Definition handleShareLink (pathname : string) (request : Request)
    (config : Config) (env : Env W) : M W Response :=
  let pathAfterS := substring_from 3 pathname in
  match decode_block pathAfterS with
  | DecodeThrew => ret (error_response "Invalid share link format." 400)
  | Unsupported _ => ret (error_response "Unsupported music platform." 400)
  | MusicUrl None => ret (error_response "Invalid share link." 400)
  | MusicUrl (Some musicUrl) =>
    let! metadata := fetchAndCacheMetadata P musicUrl pathAfterS config env in
    if negb (truthy_json metadata)
    then ret (error_response "Song not found. Please try again." 404)
    else
      let userAgent := from_option id "" (headers_get request "User-Agent") in
      let isBot := isSocialMediaBot (Some userAgent) in
      if isBot then ret (getServerSideRenderedPage musicUrl metadata config)
      else ret (getClientSideLoadingPage musicUrl metadata config)
  end.

End Handler.

(** The decoder of the share-link segment, as the rest of the worker sees it:
    the music URL, or nothing. *)
Definition decode (segment : string) : option JsVal :=
  match decode_block segment with
  | MusicUrl u => u
  | _ => None
  end.

End ShareLinkHandler.

(** ** security/html_escaper.js *)

Module HtmlEscaper.

(** The replacement of one character: [map[char]] for the five characters
    the pattern matches, the character itself otherwise. *)
Definition escape_char (c : ascii) : string :=
  if Ascii.eqb c "<" then "&lt;"
  else if Ascii.eqb c ">" then "&gt;"
  else if Ascii.eqb c "&" then "&amp;"
  else if Ascii.eqb c "034" then "&quot;"
  else if Ascii.eqb c "'" then "&#x27;"
  else String c EmptyString.

(** [str.replace(pattern, (char) => map[char])], the pattern matching each
    of the five characters of [map]: the angle brackets, the ampersand, the
    double quote (character 34) and the apostrophe. *)
Fixpoint replace_special (str : string) : string :=
  match str with
  | EmptyString => EmptyString
  | String c r => escape_char c +:+ replace_special r
  end.

(** [text] is [None] for [null] and [undefined]; other non-strings, which
    the function first converts with [String(text)], are not modelled. *)
Definition escapeHtml (text : option string) : string :=
  match text with
  | None => ""
  | Some str => replace_special str
  end.

End HtmlEscaper.

(** ** constants/services.js and the thumbnail check of utils/url_validator.js *)

Module Thumbnails.

Definition TRUSTED_THUMBNAIL_DOMAINS : list string :=
  [ "i.scdn.co";
    "is1-ssl.mzstatic.com";
    "is2-ssl.mzstatic.com";
    "is3-ssl.mzstatic.com";
    "is4-ssl.mzstatic.com";
    "is5-ssl.mzstatic.com";
    "resources.tidal.com";
    "i.ytimg.com";
    "lh3.googleusercontent.com";
    "e-cdns-images.dzcdn.net";
    "m.media-amazon.com";
    "images-na.ssl-images-amazon.com" ].

(** What the code reads of a parsed URL. *)
Record ParsedUrl : Type := mkUrl {
  protocol : string;
  hostname : string
}.

(** [s.endsWith(suffix)] *)
Fixpoint endsWith (s suffix : string) : bool :=
  String.eqb s suffix ||
  match s with
  | EmptyString => false
  | String _ r => endsWith r suffix
  end.

Section IsValidThumbnailUrl.
(** [new URL(url)], the platform's URL parser: it answers the parsed URL or
    throws. *)
Context (URL_parse : string -> Result ParsedUrl).

(** [url] is [None] for [null] and [undefined]; values of other types, which
    the function refuses, are not modelled. *)
Definition isValidThumbnailUrl (url : option string) : bool :=
  match url with
  | None => false
  | Some u =>
    if negb (truthy_string u) then false
    else
      match URL_parse u with
      | Throw => false
      | Ok parsedUrl =>
        if negb (String.eqb (protocol parsedUrl) "https:") then false
        else
          let hostname := toLowerCase (hostname parsedUrl) in
          existsb (fun domain =>
                     String.eqb hostname domain || endsWith hostname ("." +:+ domain))
                  TRUSTED_THUMBNAIL_DOMAINS
      end
  end.

End IsValidThumbnailUrl.

End Thumbnails.

(** ** worker.js *)

Module Worker.
Import RateLimiter ShareLinkHandler.

(** What the worker reads of the incoming request: the request, its method,
    and the path of [new URL(request.url)]. *)
Record Incoming : Type := mkIncoming {
  in_request : Request;
  in_method : string;
  in_pathname : string
}.

(** The handlers the worker imports and this development does not look into.
    The [async] ones are computations; [handleVersion] is a plain function
    that reads the method and throws nothing.  [handleApiProxy] is given the
    incoming request for the URL it reads its query from. *)
Record Handlers (W : Type) : Type := mkHandlers {
  handleHealth : M W Response;
  handlePrivacy : Request -> M W Response;
  handleAppPrivacy : Request -> M W Response;
  handleAdsTxt : Request -> Config -> M W Response;
  handleAppAdsTxt : Request -> Config -> M W Response;
  handleAssetLinks : Request -> M W Response;
  handleAppleAppSiteAssociation : Request -> M W Response;
  handleAbout : Request -> Config -> M W Response;
  handleContact : Request -> Config -> M W Response;
  handleFaq : Request -> Config -> M W Response;
  handleHowItWorks : Request -> Config -> M W Response;
  handleFeatures : Request -> Config -> M W Response;
  handleApiProxy : Incoming -> Config -> M W Response;
  handleDonationsAPI : Config -> Env W -> M W Response;
  handleKofiWebhook : Request -> Config -> Env W -> M W Response;
  handleVersion : Incoming -> Response;
  handleOptionsRequest : M W Response;
  handlePlaylistLink : string -> Request -> Config -> Env W -> M W Response;
  handleHomepage : Request -> Config -> M W Response
}.
Arguments handleHealth {W} _.
Arguments handlePrivacy {W} _ _.
Arguments handleAppPrivacy {W} _ _.
Arguments handleAdsTxt {W} _ _ _.
Arguments handleAppAdsTxt {W} _ _ _.
Arguments handleAssetLinks {W} _ _.
Arguments handleAppleAppSiteAssociation {W} _ _.
Arguments handleAbout {W} _ _ _.
Arguments handleContact {W} _ _ _.
Arguments handleFaq {W} _ _ _.
Arguments handleHowItWorks {W} _ _ _.
Arguments handleFeatures {W} _ _ _.
Arguments handleApiProxy {W} _ _ _.
Arguments handleDonationsAPI {W} _ _ _.
Arguments handleKofiWebhook {W} _ _ _ _.
Arguments handleVersion {W} _ _.
Arguments handleOptionsRequest {W} _.
Arguments handlePlaylistLink {W} _ _ _ _ _.
Arguments handleHomepage {W} _ _ _.

(** What a pass through the [try] block of [fetch] ends with: a response made
    on the spot, or the promise of a handler, which is returned without being
    awaited. *)
Inductive Routed (W : Type) : Type :=
| Answer (response : Response)
| Promise (handler : M W Response).
Arguments Answer {W} _.
Arguments Promise {W} _.

Section Fetch.
Context {W : Type} (P : Platform W).
Context (getConfig : Env W -> Config).
Context (getErrorPage : string -> string).
Context (rateLimitPage : Z -> string).
Context (getServerSideRenderedPage getClientSideLoadingPage :
           JsVal -> Json -> Config -> Response).
Context (H : Handlers W).

(** [createRateLimitResponse(retryAfter)]: status 429 and a page that shows
    the delay; the headers are not modelled. *)
Definition createRateLimitResponse (retryAfter : Z) : Response :=
  mkHttp 429 (rateLimitPage retryAfter).

(** [rateLimitResult.retryAfter || 60] *)
Definition retryAfter_or_60 (r : LimitResult) : Z :=
  match retryAfter r with
  | Some n => if n =? 0 then 60 else n
  | None => 60
  end.

(** The routes that are tried once the limiter has let the request pass. *)
Definition dispatch (incoming : Incoming) (config : Config) (env : Env W)
  : Routed W :=
  let request := in_request incoming in
  let pathname := in_pathname incoming in
  if String.eqb pathname "/api/song" then Promise (handleApiProxy H incoming config)
  else if String.eqb pathname "/api/donations" then Promise (handleDonationsAPI H config env)
  else if String.eqb pathname "/api/kofi-webhook"
       then Promise (handleKofiWebhook H request config env)
  else if String.eqb pathname "/api/version" then Answer (handleVersion H incoming)
  else if String.eqb (in_method incoming) "OPTIONS" then Promise (handleOptionsRequest H)
  else if startsWith pathname "/s/"
       then Promise (handleShareLink P getErrorPage getServerSideRenderedPage
                                     getClientSideLoadingPage pathname request config env)
  else if startsWith pathname "/p/"
       then Promise (handlePlaylistLink H pathname request config env)
  else if String.eqb pathname "/" then Promise (handleHomepage H request config)
  else Answer (mkHttp 404 (getErrorPage "Page not found.")).

(** The [try] block of [fetch]. *)
Definition route (incoming : Incoming) (env : Env W) : M W (Routed W) :=
  let config := getConfig env in
  let request := in_request incoming in
  let pathname := in_pathname incoming in
  if String.eqb pathname "/health" then ret (Promise (handleHealth H))
  else if String.eqb pathname "/privacy" then ret (Promise (handlePrivacy H request))
  else if String.eqb pathname "/privacy-app" then ret (Promise (handleAppPrivacy H request))
  else if String.eqb pathname "/ads.txt" then ret (Promise (handleAdsTxt H request config))
  else if String.eqb pathname "/app-ads.txt"
       then ret (Promise (handleAppAdsTxt H request config))
  else if String.eqb pathname "/.well-known/assetlinks.json"
       then ret (Promise (handleAssetLinks H request))
  else if String.eqb pathname "/.well-known/apple-app-site-association"
       then ret (Promise (handleAppleAppSiteAssociation H request))
  else if String.eqb pathname "/about" then ret (Promise (handleAbout H request config))
  else if String.eqb pathname "/contact" then ret (Promise (handleContact H request config))
  else if String.eqb pathname "/faq" then ret (Promise (handleFaq H request config))
  else if String.eqb pathname "/how-it-works"
       then ret (Promise (handleHowItWorks H request config))
  else if String.eqb pathname "/features"
       then ret (Promise (handleFeatures H request config))
  else
    let! denied :=
      if startsWith pathname "/s/" || startsWith pathname "/p/" || String.eqb pathname "/"
      then
        let clientIp := getClientIp request in
        match RATE_LIMIT env with
        | Some kv =>
          let! rateLimitResult := checkLimit P clientIp (Some kv) in
          if negb (allowed rateLimitResult)
          then ret (Some (createRateLimitResponse (retryAfter_or_60 rateLimitResult)))
          else ret None
        | None => ret None
        end
      else ret None in
    match denied with
    | Some response => ret (Answer response)
    | None => ret (dispatch incoming config env)
    end.

(** [fetch(request, env, ctx)].  The [catch] clause covers what the [try]
    block awaits; a handler's promise is returned as it is, so what it throws
    is thrown by [fetch]. *)
Definition worker_fetch (incoming : Incoming) (env : Env W) : M W Response :=
  let! routed :=
    try_catch (route incoming env)
              (ret (Answer (mkHttp 500
                 (getErrorPage "An unexpected error occurred. Please try again later.")))) in
  match routed with
  | Answer response => ret response
  | Promise handler => handler
  end.

End Fetch.

End Worker.

Import RateLimiter BotDetector MetadataFetcher UrlValidator Base64 ShareLinkHandler.

(** * Stores and worlds the worker is run against *)

(** ** An in-memory world

    Two KV namespaces with expiry, a clock and an upstream.  [put] overwrites
    the key and sets its expiry [expirationTtl] seconds ahead; [get] answers
    with the value while it has not expired. *)

Record MemWorld : Type := mkMem {
  clock : Z;
  entries : gmap string (RateText * Z);
  cache : gmap string (CachedMetadata * Z);
  upstream : string -> Result HttpResponse
}.

Definition live {V} (now : Z) (e : option (V * Z)) : option V :=
  match e with
  | Some (v, expiry) => if now <? expiry then Some v else None
  | None => None
  end.

Definition mem_get (key : string) (w : MemWorld) : Result (option RateText) * MemWorld :=
  (Ok (live (clock w) (entries w !! key)), w).

Definition mem_put (key : string) (v : RateText) (ttl : Z) (w : MemWorld)
  : Result unit * MemWorld :=
  (Ok tt, mkMem (clock w) (<[key := (v, clock w + ttl * 1000)]> (entries w))
                (cache w) (upstream w)).

Definition mem_kv : KVNamespace MemWorld RateText := mkKV mem_get mem_put.

Definition cache_get (key : string) (w : MemWorld)
  : Result (option CachedMetadata) * MemWorld :=
  (Ok (live (clock w) (cache w !! key)), w).

Definition cache_put (key : string) (v : CachedMetadata) (ttl : Z) (w : MemWorld)
  : Result unit * MemWorld :=
  (Ok tt, mkMem (clock w) (entries w)
                (<[key := (v, clock w + ttl * 1000)]> (cache w)) (upstream w)).

Definition cache_kv : KVNamespace MemWorld CachedMetadata := mkKV cache_get cache_put.

Definition mem_platform : Platform MemWorld :=
  mkPlatform clock (fun url _ w => (upstream w url, w)).

Definition mem_env : Env MemWorld := mkEnv (Some mem_kv) (Some cache_kv).

Definition set_clock (t : Z) (w : MemWorld) : MemWorld :=
  mkMem t (entries w) (cache w) (upstream w).

(** ** Stores that fail *)

(** A namespace whose every call throws. *)
Definition broken_kv {V} : KVNamespace MemWorld V :=
  mkKV (fun _ w => (Throw, w)) (fun _ _ _ w => (Throw, w)).

(** A namespace that can be read but not written. *)
Definition readonly_kv : KVNamespace MemWorld RateText :=
  mkKV mem_get (fun _ _ _ w => (Throw, w)).

(** ** Runs of the limiter *)

(** One admission check at clock reading [t]: the answer and the world left. *)
Definition check_at (clientIp : string) (t : Z) (w : MemWorld)
  : Result LimitResult * MemWorld :=
  let (r, m) := checkLimit mem_platform clientIp (Some mem_kv)
                           (mkMachine (set_clock t w) []) in
  (r, world m).

(** The worlds left by a sequence of checks at the given clock readings. *)
Fixpoint worlds_after (clientIp : string) (times : list Z) (w : MemWorld)
  : list MemWorld :=
  match times with
  | [] => []
  | t :: rest =>
    let w' := snd (check_at clientIp t w) in
    w' :: worlds_after clientIp rest w'
  end.

(** The state persisted for a client, expired or not. *)
Definition persisted (clientIp : string) (w : MemWorld) : option RateLimitState :=
  match entries w !! ("ratelimit:" +:+ clientIp) with
  | Some (TextOfState s, _) => Some s
  | _ => None
  end.

Definition in_bounds (s : RateLimitState) : Prop :=
  0 <= tokens s <= MAX_TOKENS.

(** The store can be read by the limiter and what it holds is in bounds. *)
Definition readable (clientIp : string) (w : MemWorld) : Prop :=
  match entries w !! ("ratelimit:" +:+ clientIp) with
  | Some (TextOfState s, _) => in_bounds s
  | Some (TextMalformed, _) => False
  | Some (TextEmpty, _) | None => True
  end.

(** What the limiter takes as the current state from the answer of [get]:
    absent and empty text give a full bucket, malformed text gives nothing
    ([JSON.parse] throws). *)
Definition read_state (now : Z) (stored : option RateText) : option RateLimitState :=
  match stored with
  | Some (TextOfState s) => Some s
  | Some TextMalformed => None
  | Some TextEmpty | None => Some (mkState 60 now 0)
  end.

(** The state written back once the refilled state [s] has been examined. *)
Definition written (s : RateLimitState) : RateLimitState :=
  if 1 <=? tokens s
  then mkState (tokens s - 1) (lastRefill s) (requestCount s + 1)
  else s.

Definition answer (s : RateLimitState) : LimitResult :=
  if 1 <=? tokens s then mkLimit true None else mkLimit false (Some 1).

Definition no_upstream : string -> Result HttpResponse := fun _ => Throw.

Definition empty_world : MemWorld := mkMem 0 ∅ ∅ no_upstream.

(** A drained bucket last refilled at time 0, not yet expired. *)
Definition drained_world : MemWorld :=
  mkMem 0 {[ "ratelimit:1.2.3.4" := (TextOfState (mkState 0 0 60), 120000) ]}
        ∅ no_upstream.

(** ** The refill claim as it is worded *)

(** Read on the token count persisted by the second of two checks ... *)
Definition refill_monotonicity_persisted : Prop :=
  forall clientIp w t1 t2 s1 s2,
    clientIp <> "" -> t1 <= t2 ->
    persisted clientIp (snd (check_at clientIp t1 w)) = Some s1 ->
    persisted clientIp (snd (check_at clientIp t2 (snd (check_at clientIp t1 w)))) = Some s2 ->
    tokens s2 = Z.min MAX_TOKENS (tokens s1 + (t2 - t1) / 1000).

(** ... and read on the token count the second check has once it has
    refilled, before it takes a token. *)
Definition refill_monotonicity_refilled : Prop :=
  forall clientIp w t1 t2 s1,
    clientIp <> "" -> t1 <= t2 ->
    persisted clientIp (snd (check_at clientIp t1 w)) = Some s1 ->
    tokens (refill t2 s1) = Z.min MAX_TOKENS (tokens s1 + (t2 - t1) / 1000).

(** ** The metadata cache claims as they are worded *)

Definition api_url (config : Config) (musicUrl : JsVal) : string :=
  unituneApiEndpoint config +:+ "?url=" +:+ encodeURIComponent (js_to_string musicUrl).

(** The call answers with the cached data and its only external call is the
    cache read. *)
Definition served_from_cache {W} (P : Platform W) (env : Env W) (musicUrl : JsVal)
    (id : string) (config : Config) (m : Machine W) (c : CachedMetadata) : Prop :=
  fst (fetchAndCacheMetadata P musicUrl id config env m) = Ok (data c) /\
  trace (snd (fetchAndCacheMetadata P musicUrl id config env m)) =
    (trace m ++ [EvGet ("metadata:" +:+ id)])%list.

(** The call reads the cache and then goes to the upstream. *)
Definition refetched {W} (P : Platform W) (env : Env W) (musicUrl : JsVal)
    (id : string) (config : Config) (m : Machine W) : Prop :=
  exists rest,
    trace (snd (fetchAndCacheMetadata P musicUrl id config env m)) =
      (trace m ++ [EvGet ("metadata:" +:+ id);
                   EvFetch (api_url config musicUrl) WORKER_USER_AGENT] ++ rest)%list.

(** An entry with timestamp [T] is served at [T + 86_399_999], refetched at
    [T + 86_400_001], and fresh exactly when [now - T < 86_400_000]. *)
Definition cache_freshness_as_stated : Prop :=
  forall (w : MemWorld) (musicUrl : JsVal) (id : string) (config : Config)
         (c : CachedMetadata),
    live (clock w) (cache w !! ("metadata:" +:+ id)) = Some c ->
    (clock w = timestamp c + 86399999 ->
     served_from_cache mem_platform mem_env musicUrl id config (mkMachine w []) c) /\
    (clock w = timestamp c + 86400001 ->
     refetched mem_platform mem_env musicUrl id config (mkMachine w [])) /\
    (served_from_cache mem_platform mem_env musicUrl id config (mkMachine w []) c <->
     clock w - timestamp c < 86400000).

(** An upstream that answers every call with the same metadata. *)
Definition steady_upstream : string -> Result HttpResponse :=
  fun _ => Ok (mkResponse true 200 (Ok (JStr "cached"))).

(** A cache entry stamped with the epoch itself, as the function writes it
    when the clock reads 0, read 86_399_999 ms later. *)
Definition epoch_entry_world : MemWorld :=
  mkMem 86399999 ∅
        {[ "metadata:abc" := (mkCached (JStr "cached") 0, 86400000) ]}
        steady_upstream.

Definition sample_config : Config := mkConfig "https://api.unitune.art/v1-alpha.1/links" false.

(** ** Vocabulary of the share-link claims *)

Definition supported_platforms : list string :=
  [ "spotify"; "tidal"; "applemusic"; "youtubemusic"; "youtube"; "deezer";
    "amazonmusic" ].

(** A platform name is supported when it is one of the seven, in any case. *)
Definition supported (platform : string) : Prop :=
  In (toLowerCase platform) supported_platforms.

(** The canonical URL of a platform, by its URL template. *)
Definition canonical_url (platform type id : string) : option string :=
  let p := toLowerCase platform in
  if String.eqb p "spotify" then Some ("https://open.spotify.com/" +:+ type +:+ "/" +:+ id)
  else if String.eqb p "tidal" then Some ("https://tidal.com/browse/" +:+ type +:+ "/" +:+ id)
  else if String.eqb p "applemusic" then Some ("https://music.apple.com/us/song/" +:+ id)
  else if String.eqb p "youtubemusic" then Some ("https://music.youtube.com/watch?v=" +:+ id)
  else if String.eqb p "youtube" then Some ("https://youtube.com/watch?v=" +:+ id)
  else if String.eqb p "deezer" then Some ("https://www.deezer.com/" +:+ type +:+ "/" +:+ id)
  else if String.eqb p "amazonmusic" then Some ("https://music.amazon.com/tracks/" +:+ id)
  else None.

(** The text [platform:type:id]. *)
Definition triple (platform type id : string) : string :=
  platform +:+ ":" +:+ type +:+ ":" +:+ id.

Fixpoint has_char (a : ascii) (s : string) : bool :=
  match s with
  | EmptyString => false
  | String c r => Ascii.eqb c a || has_char a r
  end.

Definition no_colon (s : string) : Prop := has_char ":" s = false.

(** The text the segment stands for: what [atob] makes of it once padded and
    translated back to the standard alphabet. *)
Definition segment_text (segment : string) : Result string :=
  atob (replace_all "_" "/" (replace_all "-" "+" (pad4 segment))).

Definition plain_page (musicUrl : JsVal) (metadata : Json) (config : Config) : Response :=
  mkHttp 200 (js_to_string musicUrl).

Definition no_headers : Request := mkRequest (fun _ => None).

(** ** Characters of the Base64 alphabets *)

(** A character of the alphabet is none of the characters the decoder and the
    handler treat specially. *)
Definition plain_char (c : ascii) : Prop :=
  is_ascii_whitespace c = false /\ c <> "="%char /\
  c <> "-"%char /\ c <> "_"%char.

(** The URL-safe form of a character and the way back. *)
Definition to_url_safe (c : ascii) : ascii :=
  let c1 := if Ascii.eqb c "+" then "-"%char else c in
  if Ascii.eqb c1 "/" then "_"%char else c1.

Definition from_url_safe (c : ascii) : ascii :=
  let c1 := if Ascii.eqb c "-" then "+"%char else c in
  if Ascii.eqb c1 "_" then "/"%char else c1.

(** ** Sample requests and worlds *)

(** A request whose only header is [X-Forwarded-For]. *)
Definition forwarded_request (value : string) : Request :=
  mkRequest (fun name => if String.eqb name "X-Forwarded-For" then Some value else None).

(** A cache entry stamped at 1000 ms, read 86_399_999 ms later. *)
Definition fresh_entry_world : MemWorld :=
  mkMem 86400999 ∅
        {[ "metadata:abc" := (mkCached (JStr "cached") 1000, 86401000) ]}
        no_upstream.

Definition spotify_track : JsVal := VStr "https://open.spotify.com/track/123".

(** ** The forwarded-header claim as it is worded *)

(** Without [CF-Connecting-IP], an [X-Forwarded-For] value whose first
    comma-separated entry is blank gives the empty client IP. *)
Definition forwarded_bypass_as_stated : Prop :=
  forall (request : Request) (xff : string),
    headers_get request "CF-Connecting-IP" = None ->
    headers_get request "X-Forwarded-For" = Some xff ->
    trim (hd "" (split "," xff)) = "" ->
    getClientIp request = "".

Import HtmlEscaper Thumbnails Worker.

(** * Further vocabulary for the escaper *)

(** Reads one character back from the head of an escaped text. *)
Definition unescape_head (s : string) : option (ascii * string) :=
  match s with
  | String "&" (String "l" (String "t" (String ";" r))) => Some ("<"%char, r)
  | String "&" (String "g" (String "t" (String ";" r))) => Some (">"%char, r)
  | String "&" (String "a" (String "m" (String "p" (String ";" r)))) => Some ("&"%char, r)
  | String "&" (String "q" (String "u" (String "o" (String "t" (String ";" r))))) =>
    Some ("034"%char, r)
  | String "&" (String "#" (String "x" (String "2" (String "7" (String ";" r))))) =>
    Some ("'"%char, r)
  | String c r => Some (c, r)
  | EmptyString => None
  end.

(** * Further vocabulary for the worker *)

(** The paths the worker puts behind the limiter. *)
Definition rate_limited (pathname : string) : bool :=
  startsWith pathname "/s/" || startsWith pathname "/p/" || String.eqb pathname "/".

(** Handlers that all answer 200 with their own name. *)
Definition named_handlers : Handlers MemWorld :=
  let page name := ret (mkHttp 200 name) in
  mkHandlers MemWorld
    (page "health") (fun _ => page "privacy") (fun _ => page "privacy-app")
    (fun _ _ => page "ads") (fun _ _ => page "app-ads") (fun _ => page "assetlinks")
    (fun _ => page "apple") (fun _ _ => page "about") (fun _ _ => page "contact")
    (fun _ _ => page "faq") (fun _ _ => page "how-it-works") (fun _ _ => page "features")
    (fun _ _ => page "song") (fun _ _ => page "donations") (fun _ _ _ => page "kofi")
    (fun _ => mkHttp 200 "version") (page "options") (fun _ _ _ _ => page "playlist")
    (fun _ _ => page "home").

Definition retry_page (retryAfter : Z) : string :=
  if retryAfter =? 1 then "retry in 1s" else "retry later".

(** A URL parser that knows one URL. *)
Definition sample_URL (u : string) : Result ParsedUrl :=
  if String.eqb u "https://i.scdn.co/image/abc" then Ok (mkUrl "https:" "i.scdn.co")
  else Throw.

(** * Further runs of the limiter *)

(** One for a request let through, nothing otherwise. *)
Definition passed (r : Result LimitResult) : Z :=
  match r with
  | Ok l => if allowed l then 1 else 0
  | Throw => 0
  end.

(** The answers of a sequence of checks at the given clock readings. *)
Fixpoint answers (clientIp : string) (times : list Z) (w : MemWorld)
  : list (Result LimitResult) :=
  match times with
  | [] => []
  | t :: rest =>
    fst (check_at clientIp t w) :: answers clientIp rest (snd (check_at clientIp t w))
  end.

(** How many of them were let through. *)
Definition count_passed (clientIp : string) (times : list Z) (w : MemWorld) : Z :=
  fold_right Z.add 0 (map passed (answers clientIp times w)).

(** The clock readings, starting from [t], never go back. *)
Fixpoint nondecreasing (t : Z) (times : list Z) : Prop :=
  match times with
  | [] => True
  | x :: rest => t <= x /\ nondecreasing x rest
  end.

(** The last clock reading of a run that starts at [t]. *)
Fixpoint final (t : Z) (times : list Z) : Z :=
  match times with
  | [] => t
  | x :: rest => final x rest
  end.

(** The store knows nothing of the client. *)
Definition unknown_client (clientIp : string) (w : MemWorld) : Prop :=
  entries w !! ("ratelimit:" +:+ clientIp) = None.

(** What the store holds for the client is a state within bounds that was
    not refilled after [t]. *)
Definition known_client (clientIp : string) (t : Z) (w : MemWorld) : Prop :=
  exists s expiry,
    entries w !! ("ratelimit:" +:+ clientIp) = Some (TextOfState s, expiry) /\
    in_bounds s /\ lastRefill s <= t.

(** After a check at [t]: the state written then, with its expiry. *)
Definition checked_at (clientIp : string) (t : Z) (w : MemWorld) (s : RateLimitState) : Prop :=
  entries w !! ("ratelimit:" +:+ clientIp) = Some (TextOfState s, t + 120 * 1000) /\
  in_bounds s /\ lastRefill s <= t.

(** Tokens in hand plus those that whole seconds up to [T] would still add. *)
Definition potential (T : Z) (s : RateLimitState) : Z :=
  tokens s + (T - lastRefill s) / 1000.

Definition deny : LimitResult := mkLimit false (Some 1).

(** * Further vocabulary for the metadata cache *)

(** The events one call of [fetchAndCacheMetadata] may add to the trace. *)
Definition cache_read_event (id : string) : Event := EvGet ("metadata:" +:+ id).

Definition upstream_event (config : Config) (musicUrl : JsVal) : Event :=
  EvFetch (api_url config musicUrl) WORKER_USER_AGENT.

(** The read of the cache, when a cache is bound. *)
Definition cache_read_events {W} (env : Env W) (id : string) : list Event :=
  match SONG_CACHE env with
  | Some _ => [cache_read_event id]
  | None => []
  end.

(** The hosts a reconstructed URL can point to. *)
Definition url_prefixes : list string :=
  [ "https://open.spotify.com/";
    "https://tidal.com/browse/";
    "https://music.apple.com/us/song/";
    "https://music.youtube.com/watch?v=";
    "https://youtube.com/watch?v=";
    "https://www.deezer.com/";
    "https://music.amazon.com/tracks/" ].

(** * Inputs for the further properties *)

(** A share link for [spotify:track:123]. *)
Definition spotify_segment : string := "c3BvdGlmeTp0cmFjazoxMjM=".

(** The metadata of that link, cached at 1000 ms and read at 2000 ms. *)
Definition cached_link_world : MemWorld :=
  mkMem 2000 ∅
        {[ "metadata:" +:+ spotify_segment := (mkCached (JStr "cached") 1000, 86401000) ]}
        no_upstream.

(** An empty store in front of an upstream that answers, at 1000 ms. *)
Definition first_visit_world : MemWorld := mkMem 1000 ∅ ∅ steady_upstream.

Definition incoming_from (ip method pathname : string) : Incoming :=
  mkIncoming (forwarded_request ip) method pathname.

(** ** The unsupported-platform claim as it is worded *)

(** Every GET of a share link whose segment decodes to a triple with an
    unsupported platform is answered by the worker with 404. *)
Definition unsupported_is_404_as_stated : Prop :=
  forall (getConfig : Env MemWorld -> Config) (getErrorPage : string -> string)
         (rateLimitPage : Z -> string)
         (bot human : JsVal -> Json -> Config -> Response)
         (H : Handlers MemWorld) (incoming : Incoming) (env : Env MemWorld)
         (w : MemWorld) (p t i : string),
    in_method incoming = "GET" ->
    startsWith (in_pathname incoming) "/s/" = true ->
    segment_text (substring_from 3 (in_pathname incoming)) = Ok (triple p t i) ->
    no_colon p -> ~ supported p ->
    exists body m',
      worker_fetch mem_platform getConfig getErrorPage rateLimitPage bot human H
                   incoming env (mkMachine w []) = (Ok (mkHttp 404 body), m').


(** * Properties of the rate limiter *)

Section RateLimiterFacts.
Context {W : Type} (P : Platform W).

Lemma checkLimit_no_kv clientIp m :
  checkLimit P clientIp None m = (Ok allow, m).
Proof. reflexivity. Qed.

Lemma checkLimit_falsy_ip kv m :
  checkLimit P "" kv m = (Ok allow, m).
Proof. destruct kv; reflexivity. Qed.

(** Whatever the store does, [checkLimit] resolves: the [catch] clause covers
    every store call and [JSON.parse]. *)
Lemma checkLimit_never_throws clientIp kv m :
  exists r, fst (checkLimit P clientIp kv m) = Ok r.
Proof.
  destruct kv as [kv|]; [|by eexists].
  unfold checkLimit. destruct (truthy_string clientIp); simpl; [|by eexists].
  unfold bind, try_catch, Date_now, call; simpl.
  destruct (kv_get kv _ _) as [[[t|]|] w1]; simpl; try by eexists.
  - destruct (truthy_text t); simpl.
    + destruct t; simpl; try (by eexists).
      destruct (1 <=? _); simpl;
        destruct (kv_put kv _ _ _ _) as [[[]|] w2]; simpl; by eexists.
    + destruct (1 <=? _); simpl;
        destruct (kv_put kv _ _ _ _) as [[[]|] w2]; simpl; by eexists.
  - destruct (1 <=? _); simpl;
      destruct (kv_put kv _ _ _ _) as [[[]|] w2]; simpl; by eexists.
Qed.

Lemma truthy_string_true s : s <> "" -> truthy_string s = true.
Proof. by destruct s. Qed.

(** A run of [checkLimit] whose read succeeded, up to the outcome of [put]. *)
Lemma checkLimit_run clientIp kv m stored w1 s0 :
  clientIp <> "" ->
  kv_get kv ("ratelimit:" +:+ clientIp) (world m) = (Ok stored, w1) ->
  read_state (date_now P (world m)) stored = Some s0 ->
  checkLimit P clientIp (Some kv) m =
    let key := "ratelimit:" +:+ clientIp in
    let s1 := refill (date_now P (world m)) s0 in
    let tr := (trace m ++ [EvGet key; EvPutRate key (TextOfState (written s1)) 120])%list in
    match kv_put kv key (TextOfState (written s1)) 120 w1 with
    | (Ok _, w2) => (Ok (answer s1), mkMachine w2 tr)
    | (Throw, w2) => (Ok allow, mkMachine w2 tr)
    end.
Proof.
  intros Hip Hget Hread. unfold checkLimit.
  rewrite (truthy_string_true _ Hip). simpl.
  unfold bind, try_catch, Date_now, call. simpl. rewrite Hget. simpl.
  assert (Hst : (match stored with
                 | Some t => if truthy_text t then JSON_parse t
                             else ret (mkState MAX_TOKENS (date_now P (world m)) 0)
                 | None => ret (mkState MAX_TOKENS (date_now P (world m)) 0)
                 end) = @ret W _ s0).
  { unfold MAX_TOKENS. destruct stored as [[s| |]|]; simpl in *; congruence. }
  rewrite Hst. unfold ret at 1. simpl.
  unfold written, answer, JSON_stringify.
  change (WINDOW_SIZE * 2) with 120.
  destruct (1 <=? tokens (refill (date_now P (world m)) s0)); simpl;
    destruct (kv_put kv _ _ _ _) as [[[]|] w2]; simpl;
    by rewrite <- app_assoc.
Qed.

(** C1. Fail-open: when the store's [get] throws, or its [put] throws, the
    call resolves to [{allowed: true}]; the exception neither reaches the
    caller nor turns into a denial. *)
Theorem checkLimit_fail_open (clientIp : string) (kv : KVNamespace W RateText)
    (m : Machine W) :
  fst (kv_get kv ("ratelimit:" +:+ clientIp) (world m)) = Throw \/
  (forall v ttl,
      fst (kv_put kv ("ratelimit:" +:+ clientIp) v ttl
                  (snd (kv_get kv ("ratelimit:" +:+ clientIp) (world m)))) = Throw) ->
  fst (checkLimit P clientIp (Some kv) m) = Ok allow.
Proof.
  intros H. destruct clientIp as [|c ip]; [reflexivity|].
  set (clientIp := String c ip) in *.
  assert (Hip : clientIp <> "") by done.
  destruct (kv_get kv ("ratelimit:" +:+ clientIp) (world m)) as [[stored|] w1] eqn:Hget.
  - destruct H as [H|H]; [discriminate|]. simpl in H.
    destruct (read_state (date_now P (world m)) stored) as [s0|] eqn:Hread.
    + rewrite (checkLimit_run _ _ _ _ _ _ Hip Hget Hread). simpl.
      specialize (H (TextOfState (written (refill (date_now P (world m)) s0))) 120).
      destruct (kv_put kv _ _ _ _) as [[[]|] w2]; simpl in *; [discriminate|done].
    + destruct stored as [[s| |]|]; try discriminate.
      unfold checkLimit, bind, try_catch, Date_now, call. simpl.
      fold clientIp. by rewrite Hget.
  - unfold checkLimit, bind, try_catch, Date_now, call. simpl.
    fold clientIp. by rewrite Hget.
Qed.

(** C2. The algorithm on the non-error path: an absent state is a full bucket
    of 60 tokens with [lastRefill = now] and no request counted; after the
    refill, one token is taken and one request counted when at least one
    token is there, and the call is allowed; otherwise the refilled state is
    written as it is, with the same request count, and the call is denied
    with [retryAfter = 1].  In both cases the state is written once, with a
    TTL of 120 seconds. *)
Theorem checkLimit_algorithm (clientIp : string) (kv : KVNamespace W RateText)
    (m : Machine W) (stored : option RateText) (w1 : W) :
  clientIp <> "" ->
  kv_get kv ("ratelimit:" +:+ clientIp) (world m) = (Ok stored, w1) ->
  stored <> Some TextMalformed ->
  (forall v, fst (kv_put kv ("ratelimit:" +:+ clientIp) v 120 w1) = Ok tt) ->
  let key := "ratelimit:" +:+ clientIp in
  let now := date_now P (world m) in
  let s0 := match stored with
            | Some (TextOfState s) => s
            | _ => mkState 60 now 0
            end in
  let s1 := refill now s0 in
  requestCount s1 = requestCount s0 /\
  (1 <= tokens s1 ->
   let s2 := mkState (tokens s1 - 1) (lastRefill s1) (requestCount s1 + 1) in
   checkLimit P clientIp (Some kv) m =
     (Ok (mkLimit true None),
      mkMachine (snd (kv_put kv key (TextOfState s2) 120 w1))
                (trace m ++ [EvGet key; EvPutRate key (TextOfState s2) 120])%list)) /\
  (tokens s1 < 1 ->
   checkLimit P clientIp (Some kv) m =
     (Ok (mkLimit false (Some 1)),
      mkMachine (snd (kv_put kv key (TextOfState s1) 120 w1))
                (trace m ++ [EvGet key; EvPutRate key (TextOfState s1) 120])%list)).
Proof.
  intros Hip Hget Hwf Hput key now s0 s1.
  assert (Hread : read_state now stored = Some s0).
  { subst s0. destruct stored as [[s| |]|]; simpl; congruence. }
  pose proof (checkLimit_run _ _ _ _ _ _ Hip Hget Hread) as Hrun.
  cbv zeta in Hrun. fold now key s1 in Hrun.
  split; [|split].
  - subst s1. unfold refill. by destruct (0 <? _).
  - intros Hge s2. rewrite Hrun. unfold written, answer.
    destruct (Z.leb_spec 1 (tokens s1)); [|lia]. fold s2.
    specialize (Hput (TextOfState s2)). fold key in Hput.
    by destruct (kv_put kv key (TextOfState s2) 120 w1) as [[[]|] w2].
  - intros Hlt. rewrite Hrun. unfold written, answer.
    destruct (Z.leb_spec 1 (tokens s1)); [lia|].
    specialize (Hput (TextOfState s1)). fold key in Hput.
    by destruct (kv_put kv key (TextOfState s1) 120 w1) as [[[]|] w2].
Qed.

(** C10, amended.  A request without a usable [CF-Connecting-IP] whose
    [X-Forwarded-For] value is not empty and has a blank first
    comma-separated entry gets the empty client IP, and [checkLimit] then
    allows it without any call to the store: the machine, world and trace, is
    left as it was. *)
Theorem empty_forwarded_entry_bypasses_limit (request : Request) (xff : string)
    (kv : option (KVNamespace W RateText)) (m : Machine W) :
  truthy_header (headers_get request "CF-Connecting-IP") = false ->
  headers_get request "X-Forwarded-For" = Some xff ->
  xff <> "" ->
  trim (hd "" (split "," xff)) = "" ->
  getClientIp request = "" /\
  checkLimit P (getClientIp request) kv m = (Ok allow, m).
Proof.
  intros Hcf Hxff Hne Hblank.
  assert (Hip : getClientIp request = "").
  { unfold getClientIp. rewrite Hcf, Hxff. simpl.
    by rewrite (truthy_string_true _ Hne). }
  split; [done|]. rewrite Hip. apply checkLimit_falsy_ip.
Qed.

End RateLimiterFacts.

(** ** Sequences of checks against the in-memory store *)

Lemma refill_in_bounds now s : in_bounds s -> in_bounds (refill now s).
Proof.
  unfold in_bounds, refill, MAX_TOKENS.
  destruct (Z.ltb_spec 0 (tokensToAdd now s)); simpl; lia.
Qed.

Lemma written_in_bounds s : in_bounds s -> in_bounds (written s).
Proof.
  unfold in_bounds, written, MAX_TOKENS.
  destruct (Z.leb_spec 1 (tokens s)); simpl; lia.
Qed.

Lemma check_at_readable clientIp t w :
  clientIp <> "" -> readable clientIp w ->
  exists s0, in_bounds s0 /\
    check_at clientIp t w =
      (Ok (answer (refill t s0)),
       mkMem t (<["ratelimit:" +:+ clientIp :=
                   (TextOfState (written (refill t s0)), t + 120 * 1000)]>
                (entries w)) (cache w) (upstream w)).
Proof.
  intros Hip Hr. unfold readable in Hr.
  set (key := "ratelimit:" +:+ clientIp) in *.
  set (stored := live t (entries w !! key)).
  assert (Hget : kv_get mem_kv key (world (mkMachine (set_clock t w) [])) =
                 (Ok stored, set_clock t w)) by reflexivity.
  assert (Hs0 : exists s0, in_bounds s0 /\ read_state t stored = Some s0).
  { assert (Hfull : in_bounds (mkState 60 t 0)) by (unfold in_bounds, MAX_TOKENS; simpl; lia).
    subst stored. unfold live.
    destruct (entries w !! key) as [[[s| |] expiry]|];
      try destruct (t <? expiry); simpl; eauto; done. }
  destruct Hs0 as (s0 & Hb & Hread). exists s0. split; [done|].
  unfold check_at.
  rewrite (checkLimit_run mem_platform _ _ _ _ _ _ Hip Hget Hread).
  reflexivity.
Qed.

Lemma check_at_bounds clientIp t w :
  clientIp <> "" -> readable clientIp w ->
  exists s, persisted clientIp (snd (check_at clientIp t w)) = Some s /\ in_bounds s.
Proof.
  intros Hip Hr. destruct (check_at_readable clientIp t w Hip Hr) as (s0 & Hb & ->).
  exists (written (refill t s0)). split.
  - unfold persisted. simpl. by rewrite lookup_insert_eq.
  - by apply written_in_bounds, refill_in_bounds.
Qed.

Lemma persisted_readable clientIp w s :
  persisted clientIp w = Some s -> in_bounds s -> readable clientIp w.
Proof.
  unfold persisted, readable.
  destruct (entries w !! _) as [[[s'| |] expiry]|]; try discriminate.
  by intros [= ->].
Qed.

(** C3. Token bucket bounds: from a persisted state with
    [0 <= tokens <= MAX_TOKENS], after every check of a sequence made at
    arbitrary clock readings (non-decreasing or not), the state persisted for
    the client has [0 <= tokens <= 60]. *)
Theorem token_bucket_bounds (clientIp : string) (s0 : RateLimitState)
    (w : MemWorld) (times : list Z) :
  clientIp <> "" ->
  persisted clientIp w = Some s0 ->
  0 <= tokens s0 <= MAX_TOKENS ->
  Forall (fun w' => exists s, persisted clientIp w' = Some s /\ 0 <= tokens s <= 60)
         (worlds_after clientIp times w).
Proof.
  intros Hip Hp Hb. revert w s0 Hp Hb.
  induction times as [|t rest IH]; intros w s0 Hp Hb; simpl; [constructor|].
  destruct (check_at_bounds clientIp t w Hip (persisted_readable _ _ _ Hp Hb))
    as (s & Hs & Hsb).
  constructor; [by exists s | by apply (IH _ s)].
Qed.

(** *** Refill *)

Example first_request_leaves_59 :
  persisted "1.2.3.4" (snd (check_at "1.2.3.4" 1000 empty_world))
  = Some (mkState 59 1000 1)
  /\ fst (check_at "1.2.3.4" 1000 empty_world) = Ok (mkLimit true None).
Proof. split; vm_compute; reflexivity. Qed.

(** C7, as worded, fails.  A fresh client checked at 0 ms and again at
    5000 ms has 59 tokens persisted both times, not [min 60 (59 + 5) = 60]:
    the second check takes a token itself.  And the refill is counted from
    [lastRefill], not from the previous check: a drained bucket last refilled
    at 0 ms, checked at 900 ms (denied) and again at 1000 ms, is refilled by
    one token although only 0.1 s separate the two checks. *)
Lemma refill_monotonicity_counterexample :
  ~ refill_monotonicity_persisted /\ ~ refill_monotonicity_refilled.
Proof.
  split.
  - intros H.
    specialize (H "1.2.3.4" empty_world 0 5000 (mkState 59 0 1) (mkState 59 5000 2)).
    assert (Hc : 59 = Z.min MAX_TOKENS (59 + (5000 - 0) / 1000)).
    { apply H; [done | lia | vm_compute; reflexivity | vm_compute; reflexivity]. }
    vm_compute in Hc. discriminate.
  - intros H.
    specialize (H "1.2.3.4" drained_world 900 1000 (mkState 0 0 60)).
    assert (Hc : tokens (refill 1000 (mkState 0 0 60))
                 = Z.min MAX_TOKENS (0 + (1000 - 900) / 1000)).
    { apply H; [done | lia | vm_compute; reflexivity]. }
    vm_compute in Hc. discriminate.
Qed.

Section RefillFacts.
Context {W : Type} (P : Platform W).

(** C7, amended.  A check at time [now] that reads a state with at most 60
    tokens and [lastRefill <= now] refills by the whole seconds elapsed since
    [lastRefill], capped at 60, then takes one token if one is there; the
    state it writes has [lastRefill = now] exactly when at least one whole
    second had elapsed since [lastRefill]. *)
Theorem refill_since_lastRefill (clientIp : string) (kv : KVNamespace W RateText)
    (m : Machine W) (s : RateLimitState) (w1 : W) :
  clientIp <> "" ->
  kv_get kv ("ratelimit:" +:+ clientIp) (world m) = (Ok (Some (TextOfState s)), w1) ->
  tokens s <= MAX_TOKENS ->
  lastRefill s <= date_now P (world m) ->
  let now := date_now P (world m) in
  let elapsed := (now - lastRefill s) / 1000 in
  let refilled := Z.min 60 (tokens s + elapsed) in
  exists s',
    trace (snd (checkLimit P clientIp (Some kv) m)) =
      (trace m ++ [EvGet ("ratelimit:" +:+ clientIp);
                   EvPutRate ("ratelimit:" +:+ clientIp) (TextOfState s') 120])%list /\
    tokens s' = (if 1 <=? refilled then refilled - 1 else refilled) /\
    lastRefill s' = (if 1 <=? elapsed then now else lastRefill s).
Proof.
  intros Hip Hget Hcap Htime now elapsed refilled.
  assert (Hread : read_state now (Some (TextOfState s)) = Some s) by reflexivity.
  pose proof (checkLimit_run P _ _ _ _ _ _ Hip Hget Hread) as Hrun.
  cbv zeta in Hrun. fold now in Hrun.
  exists (written (refill now s)). split.
  - rewrite Hrun. by destruct (kv_put kv _ _ _ _) as [[[]|] w2].
  - assert (He : tokensToAdd now s = elapsed).
    { unfold tokensToAdd, REFILL_RATE. subst elapsed. by rewrite Z.mul_1_r. }
    assert (Hpos : 0 <= elapsed).
    { subst elapsed. apply Z.div_pos; lia. }
    assert (Hr : tokens (refill now s) = refilled /\
                 lastRefill (refill now s) = (if 1 <=? elapsed then now else lastRefill s)).
    { unfold refill. rewrite He. subst refilled. unfold MAX_TOKENS in *.
      destruct (Z.ltb_spec 0 elapsed), (Z.leb_spec 1 elapsed); simpl; lia. }
    destruct Hr as [Hr1 Hr2]. unfold written. rewrite Hr1.
    destruct (1 <=? refilled); simpl; by rewrite ?Hr1, ?Hr2.
Qed.

End RefillFacts.

(** C10, as worded, fails for a header that is present with an empty value:
    its first entry is empty, but [if (xForwardedFor)] takes the empty string
    for a missing header and the client IP falls through to ["unknown"]. *)
Lemma forwarded_bypass_counterexample : ~ forwarded_bypass_as_stated.
Proof.
  intros H. specialize (H (forwarded_request "") "").
  assert (Hc : getClientIp (forwarded_request "") = "") by (by apply H).
  vm_compute in Hc. discriminate.
Qed.

Example blank_first_entry :
  getClientIp (forwarded_request " , anything") = "" /\
  getClientIp (forwarded_request "10.0.0.1, 10.0.0.2") = "10.0.0.1".
Proof. split; reflexivity. Qed.

(** Sixty checks within one second drain a fresh bucket; the sixty-first is
    denied with a retry hint of one second. *)
Example sixty_first_request_denied :
  let w60 := List.last (worlds_after "1.2.3.4" (repeat 1000 60) empty_world)
                       empty_world in
  persisted "1.2.3.4" w60 = Some (mkState 0 1000 60) /\
  fst (check_at "1.2.3.4" 1000 w60) = Ok (mkLimit false (Some 1)).
Proof. split; vm_compute; reflexivity. Qed.

(** * Properties of the bot detector *)

Lemma startsWith_spec s p :
  startsWith s p = true <-> exists post, s = p +:+ post.
Proof.
  revert s. induction p as [|a p IH]; intros s; simpl.
  - split; [by exists s | done].
  - destruct s as [|b s]; simpl.
    + split; [done | by intros [post ?]].
    + rewrite andb_true_iff, IH. split.
      * intros [Hab [post ->]]. apply Ascii.eqb_eq in Hab as ->. by exists post.
      * intros [post [= -> ->]]. split; [apply Ascii.eqb_refl | by exists post].
Qed.

Lemma includes_spec s p :
  includes s p = true <-> exists pre post, s = pre +:+ p +:+ post.
Proof.
  induction s as [|c s IH].
  - simpl. rewrite orb_false_r, startsWith_spec. split.
    + intros [post ->]. by exists "", post.
    + intros (pre & post & H). destruct pre; [by exists post | discriminate].
  - cbn [includes]. rewrite orb_true_iff, startsWith_spec, IH. split.
    + intros [[post ->] | (pre & post & ->)].
      * by exists "", post.
      * by exists (String c pre), post.
    + intros (pre & post & H). destruct pre as [|c' pre]; simpl in H.
      * left. by exists post.
      * right. injection H as -> ->. by exists pre, post.
Qed.

(** C9. Bot classification is a function of the user-agent string alone: it
    answers [true] exactly when the lower-cased string contains the
    lower-cased form of one of the twelve signatures; the absent and the empty
    string are not bots; ["facebookexternalhit/1.1"] is a bot and
    ["Mozilla/5.0 (iPhone...)"] is not. *)
Theorem isSocialMediaBot_classification :
  length botPatterns = 12%nat /\
  (forall ua : string,
      isSocialMediaBot (Some ua) = true <->
      exists pattern pre post,
        In pattern botPatterns /\
        toLowerCase ua = pre +:+ toLowerCase pattern +:+ post) /\
  isSocialMediaBot None = false /\
  isSocialMediaBot (Some "") = false /\
  isSocialMediaBot (Some "facebookexternalhit/1.1") = true /\
  isSocialMediaBot (Some "Mozilla/5.0 (iPhone...)") = false.
Proof.
  split; [reflexivity|]. split; [|repeat split; vm_compute; reflexivity].
  intros ua. destruct ua as [|c ua].
  - split; [discriminate|].
    intros (pattern & pre & post & Hin & H). exfalso.
    destruct pre; [|discriminate]. simpl in H, Hin.
    repeat (destruct Hin as [<- | Hin]; [discriminate|]). done.
  - unfold isSocialMediaBot. cbn [truthy_string negb].
    rewrite existsb_exists. split.
    + intros (pattern & Hin & Hinc). apply includes_spec in Hinc as (pre & post & H).
      by exists pattern, pre, post.
    + intros (pattern & pre & post & Hin & H). exists pattern. split; [done|].
      apply includes_spec. by exists pre, post.
Qed.

(** * Properties of the metadata cache *)

Section FetcherFacts.
Context {W : Type} (P : Platform W).

(** The network part, flattened: what it answers and which calls it makes,
    by the outcome of [fetch], of [response.json()] and of the cache write. *)
Lemma fetch_from_api_run musicUrl cacheKey config env (m : Machine W) :
  fetch_from_api P musicUrl cacheKey config env m =
    let tr := (trace m ++ [EvFetch (api_url config musicUrl) WORKER_USER_AGENT])%list in
    match fetch P (api_url config musicUrl) WORKER_USER_AGENT (world m) with
    | (Throw, w1) => (Ok JNull, mkMachine w1 tr)
    | (Ok response, w1) =>
      if ok response then
        match json response with
        | Throw => (Ok JNull, mkMachine w1 tr)
        | Ok metadata =>
          match SONG_CACHE env with
          | Some kv =>
            if truthy_json metadata then
              let v := mkCached metadata (date_now P w1) in
              match kv_put kv cacheKey v 86400 w1 with
              | (Ok _, w2) =>
                (Ok metadata, mkMachine w2 (tr ++ [EvPutCache cacheKey v 86400]))
              | (Throw, w2) =>
                (Ok JNull, mkMachine w2 (tr ++ [EvPutCache cacheKey v 86400]))
              end
            else (Ok metadata, mkMachine w1 tr)
          | None => (Ok metadata, mkMachine w1 tr)
          end
        end
      else (Ok JNull, mkMachine w1 tr)
    end.
Proof.
  unfold fetch_from_api, api_url, try_catch, bind, call, response_json, Date_now.
  cbv zeta.
  destruct (fetch P _ _ _) as [[response|] w1]; simpl; [|done].
  destruct (ok response); [|done].
  destruct (json response) as [metadata|]; simpl; [|done].
  destruct (SONG_CACHE env) as [kv|]; simpl; [|done].
  destruct (truthy_json metadata); simpl; [|done].
  by destruct (kv_put kv _ _ _ _) as [[[]|] w2].
Qed.

Lemma fetch_from_api_resolves musicUrl cacheKey config env (m : Machine W) :
  exists r, fst (fetch_from_api P musicUrl cacheKey config env m) = Ok r.
Proof.
  rewrite fetch_from_api_run. cbv zeta.
  destruct (fetch P _ _ _) as [[response|] w1]; [|by eexists].
  destruct (ok response); [|by eexists].
  destruct (json response) as [metadata|]; [|by eexists].
  destruct (SONG_CACHE env) as [kv|]; [|by eexists].
  destruct (truthy_json metadata); [|by eexists].
  destruct (kv_put kv _ _ _ _) as [[[]|] w2]; by eexists.
Qed.

Lemma fetch_from_api_trace musicUrl cacheKey config env (m : Machine W) :
  exists rest,
    trace (snd (fetch_from_api P musicUrl cacheKey config env m)) =
      (trace m ++ [EvFetch (api_url config musicUrl) WORKER_USER_AGENT] ++ rest)%list.
Proof.
  rewrite fetch_from_api_run. cbv zeta.
  destruct (fetch P _ _ _) as [[response|] w1]; [|by exists []].
  destruct (ok response); [|by exists []].
  destruct (json response) as [metadata|]; [|by exists []].
  destruct (SONG_CACHE env) as [kv|]; [|by exists []].
  destruct (truthy_json metadata); [|by exists []].
  destruct (kv_put kv _ _ _ _) as [[[]|] w2]; simpl;
    eexists; by rewrite <- app_assoc.
Qed.

(** The cache lookup, flattened, when the store answers. *)
Lemma cache_lookup_run cacheKey env kv (m : Machine W) cached w1 :
  SONG_CACHE env = Some kv ->
  kv_get kv cacheKey (world m) = (Ok cached, w1) ->
  cache_lookup P cacheKey env m =
    (Ok (match cached with
         | Some c =>
           if negb (timestamp c =? 0) && (date_now P w1 - timestamp c <? 86400000)
           then Some (data c) else None
         | None => None
         end),
     mkMachine w1 (trace m ++ [EvGet cacheKey])).
Proof.
  intros Henv Hget. unfold cache_lookup, bind, call, Date_now. rewrite Henv.
  simpl. rewrite Hget. destruct cached as [c|]; [|done].
  destruct (timestamp c =? 0); simpl; [done|].
  by destruct (_ <? _).
Qed.

(** C4, amended.  An entry with a non-zero timestamp [T] is served from the
    cache, with no call to the upstream, when read at [T + 86_399_999] and,
    more generally, whenever [now - T < 86_400_000]; an entry whose timestamp
    is zero, or with [now - T >= 86_400_000] (so at [T + 86_400_001]), is
    a miss and the upstream is called. *)
Theorem cache_freshness_boundary (env : Env W) (kv : KVNamespace W CachedMetadata)
    (musicUrl : JsVal) (id : string) (config : Config) (m : Machine W)
    (c : CachedMetadata) (w1 : W) :
  SONG_CACHE env = Some kv ->
  kv_get kv ("metadata:" +:+ id) (world m) = (Ok (Some c), w1) ->
  (timestamp c <> 0 -> date_now P w1 - timestamp c < 86400000 ->
   served_from_cache P env musicUrl id config m c) /\
  (timestamp c = 0 \/ 86400000 <= date_now P w1 - timestamp c ->
   refetched P env musicUrl id config m) /\
  (timestamp c <> 0 -> date_now P w1 = timestamp c + 86399999 ->
   served_from_cache P env musicUrl id config m c) /\
  (date_now P w1 = timestamp c + 86400001 ->
   refetched P env musicUrl id config m).
Proof.
  intros Henv Hget.
  assert (Hserved : timestamp c <> 0 -> date_now P w1 - timestamp c < 86400000 ->
                    served_from_cache P env musicUrl id config m c).
  { intros Hts Hfresh. unfold served_from_cache, fetchAndCacheMetadata, bind.
    rewrite (cache_lookup_run _ _ _ _ _ _ Henv Hget).
    destruct (Z.eqb_spec (timestamp c) 0); [done|].
    destruct (Z.ltb_spec (date_now P w1 - timestamp c) 86400000); [|lia].
    by simpl. }
  assert (Hmiss : timestamp c = 0 \/ 86400000 <= date_now P w1 - timestamp c ->
                  refetched P env musicUrl id config m).
  { intros Hstale. unfold refetched, fetchAndCacheMetadata, bind.
    rewrite (cache_lookup_run _ _ _ _ _ _ Henv Hget).
    assert (negb (timestamp c =? 0) && (date_now P w1 - timestamp c <? 86400000)
            = false) as ->.
    { destruct (Z.eqb_spec (timestamp c) 0); [done|].
      destruct (Z.ltb_spec (date_now P w1 - timestamp c) 86400000); [lia|done]. }
    destruct (fetch_from_api_trace musicUrl ("metadata:" +:+ id) config env
                (mkMachine w1 (trace m ++ [EvGet ("metadata:" +:+ id)])))
      as [rest Hrest].
    exists rest. rewrite Hrest. simpl. by rewrite <- app_assoc. }
  split; [done|]. split; [done|]. split.
  - intros Hts Hnow. apply Hserved; [done | lia].
  - intros Hnow. apply Hmiss. right. lia.
Qed.

(** What does hold of the failure semantics.  When the cache read does not
    throw (the store is absent, or its [get] answers), the function resolves:
    nothing is thrown to the caller.  On a miss, an upstream call that throws
    or answers with a non-2xx status gives [null], and so does a cache write
    that throws.  Without a store the function makes the single upstream call
    and answers the fetched metadata, or [null]. *)
Lemma fetchAndCacheMetadata_failure_semantics (env : Env W) (musicUrl : JsVal)
    (id : string) (config : Config) (m : Machine W) :
  match SONG_CACHE env with
  | Some kv => fst (kv_get kv ("metadata:" +:+ id) (world m)) <> Throw
  | None => True
  end ->
  (exists r, fst (fetchAndCacheMetadata P musicUrl id config env m) = Ok r) /\
  (forall m1,
      cache_lookup P ("metadata:" +:+ id) env m = (Ok None, m1) ->
      match fetch P (api_url config musicUrl) WORKER_USER_AGENT (world m1) with
      | (Throw, _) => True
      | (Ok response, w2) =>
        ok response = false \/
        exists kv metadata,
          ok response = true /\ json response = Ok metadata /\
          truthy_json metadata = true /\ SONG_CACHE env = Some kv /\
          fst (kv_put kv ("metadata:" +:+ id)
                      (mkCached metadata (date_now P w2)) 86400 w2) = Throw
      end ->
      fst (fetchAndCacheMetadata P musicUrl id config env m) = Ok JNull) /\
  (SONG_CACHE env = None ->
   fetchAndCacheMetadata P musicUrl id config env m =
     match fetch P (api_url config musicUrl) WORKER_USER_AGENT (world m) with
     | (Ok response, w1) =>
       (Ok (if ok response
            then match json response with Ok metadata => metadata | Throw => JNull end
            else JNull),
        mkMachine w1 (trace m ++ [EvFetch (api_url config musicUrl) WORKER_USER_AGENT]))
     | (Throw, w1) =>
       (Ok JNull,
        mkMachine w1 (trace m ++ [EvFetch (api_url config musicUrl) WORKER_USER_AGENT]))
     end).
Proof.
  intros Hread. split; [|split].
  - unfold fetchAndCacheMetadata, bind.
    destruct (SONG_CACHE env) as [kv|] eqn:Henv.
    + destruct (kv_get kv ("metadata:" +:+ id) (world m)) as [[cached|] w1] eqn:Hget;
        [|done].
      rewrite (cache_lookup_run _ _ _ _ _ _ Henv Hget).
      destruct (match cached with Some _ => _ | None => _ end);
        [by eexists | apply fetch_from_api_resolves].
    + unfold cache_lookup. rewrite Henv. apply fetch_from_api_resolves.
  - intros m1 Hlookup Hfail. unfold fetchAndCacheMetadata, bind.
    rewrite Hlookup, fetch_from_api_run. cbv zeta.
    destruct (fetch P _ _ _) as [[response|] w2]; [|done].
    destruct Hfail as [-> | (kv & metadata & -> & -> & -> & -> & Hput)]; [done|].
    by destruct (kv_put kv _ _ _ _) as [[[]|] w3].
  - intros Henv. unfold fetchAndCacheMetadata, bind, cache_lookup.
    rewrite Henv. simpl. rewrite fetch_from_api_run, Henv. cbv zeta.
    destruct (fetch P _ _ _) as [[response|] w1]; [|done].
    destruct (ok response); [|done].
    by destruct (json response).
Qed.

(** C5, at the failing input.  The cache read is awaited before the [try]
    block: when the store's [get] throws, [fetchAndCacheMetadata] throws to
    its caller, and it has made no call other than that read; the upstream
    is never tried. *)
Theorem cache_read_exception_propagates (env : Env W)
    (kv : KVNamespace W CachedMetadata) (musicUrl : JsVal) (id : string)
    (config : Config) (m : Machine W) :
  SONG_CACHE env = Some kv ->
  fst (kv_get kv ("metadata:" +:+ id) (world m)) = Throw ->
  fst (fetchAndCacheMetadata P musicUrl id config env m) = Throw /\
  trace (snd (fetchAndCacheMetadata P musicUrl id config env m)) =
    trace m ++ [EvGet ("metadata:" +:+ id)].
Proof.
  intros Henv Hget.
  unfold fetchAndCacheMetadata, cache_lookup, bind, call. rewrite Henv.
  destruct (kv_get kv ("metadata:" +:+ id) (world m)) as [[cached|] w1];
    [discriminate|].
  split; reflexivity.
Qed.

End FetcherFacts.

(** C4, as worded, fails for an entry whose timestamp is 0: the reader tests
    [cached.timestamp] for truthiness before it compares, so such an entry
    read at [0 + 86_399_999] is a miss and the upstream is called. *)
Lemma cache_freshness_counterexample : ~ cache_freshness_as_stated.
Proof.
  intros H.
  destruct (H epoch_entry_world (VStr "https://open.spotify.com/track/123")
              "abc" sample_config (mkCached (JStr "cached") 0))
    as [Hserved _]; [vm_compute; reflexivity|].
  destruct Hserved as [_ Htrace]; [reflexivity|].
  vm_compute in Htrace. discriminate.
Qed.

(** The entry of [epoch_entry_world] is the one the function itself writes
    when it misses at clock reading 0. *)
Example written_at_epoch :
  cache (world (snd (fetchAndCacheMetadata mem_platform spotify_track "abc"
                       sample_config mem_env
                       (mkMachine (mkMem 0 ∅ ∅ steady_upstream) []))))
  = cache epoch_entry_world.
Proof. vm_compute. reflexivity. Qed.

(** * Properties of the share-link decoder *)

(** ** Base64: decoding undoes encoding *)

Lemma sextet_char_roundtrip s : sextet_of_char (char_of_sextet s) = Some s.
Proof. destruct s as [[] [] [] [] [] []]; reflexivity. Qed.

Lemma char_of_sextet_plain s :
  plain_char (char_of_sextet s) /\
  (char_of_sextet s = "+"%char \/ char_of_sextet s = "/"%char \/
   (char_of_sextet s <> "+"%char /\ char_of_sextet s <> "/"%char)).
Proof.
  destruct s as [[] [] [] [] [] []]; (split; [repeat split; done|]);
    vm_compute; first [ by left | by right; left | right; right; split; discriminate ].
Qed.

(** Induction on lists three elements at a time. *)
Lemma list_ind3 {A} (Q : list A -> Prop) :
  Q [] -> (forall a, Q [a]) -> (forall a b, Q [a; b]) ->
  (forall a b c r, Q r -> Q (a :: b :: c :: r)) ->
  forall l, Q l.
Proof.
  intros H0 H1 H2 H3.
  fix IH 1. intros [|a [|b [|c r]]]; [done | done | done |].
  apply H3, IH.
Qed.

Lemma decode_encode_groups (l : list ascii) :
  decode_groups (encode_groups l) = l.
Proof.
  induction l as [|a|a b|a b c r IH] using list_ind3.
  - reflexivity.
  - by destruct a.
  - by destruct a, b.
  - destruct a, b, c. cbn [encode_groups decode_groups]. by rewrite IH.
Qed.

Lemma sextets_of_alphabet (ss : list Sextet) :
  sextets_of_chars (map char_of_sextet ss) = Some ss.
Proof.
  induction ss as [|s ss IH]; [done|].
  simpl. by rewrite sextet_char_roundtrip, IH.
Qed.

Lemma filter_plain (ss : list Sextet) (tail : list ascii) :
  Forall (fun c => c = "="%char) tail ->
  List.filter (fun c => negb (is_ascii_whitespace c)) (map char_of_sextet ss ++ tail)
  = map char_of_sextet ss ++ tail.
Proof.
  intros Htail. induction ss as [|s ss IH]; simpl.
  - induction Htail as [|c tail -> _ IHt]; [done|]. simpl. by rewrite IHt.
  - destruct (char_of_sextet_plain s) as [[-> _] _]. simpl. by rewrite IH.
Qed.

Lemma mod4_step (n : nat) : (S (S (S (S n))) mod 4 = n mod 4)%nat.
Proof.
  change (S (S (S (S n)))) with (4 + n)%nat.
  rewrite Nat.add_comm. change 4%nat with (1 * 4)%nat at 1.
  by rewrite Nat.Div0.mod_add.
Qed.

(** The length of an unpadded encoding is never 1 modulo 4, and the padding
    is what brings it to a multiple of four. *)
Lemma encode_groups_length (l : list ascii) :
  (length (encode_groups l) mod 4 <> 1)%nat /\
  repeat "="%char ((4 - length (encode_groups l) mod 4) mod 4)%nat = padding_for l /\
  ((length (encode_groups l) + length (padding_for l)) mod 4 = 0)%nat.
Proof.
  induction l as [|a|a b|a b c r IH] using list_ind3.
  - by vm_compute.
  - destruct a. by vm_compute.
  - destruct a, b. by vm_compute.
  - destruct a, b, c. cbn [encode_groups padding_for length].
    rewrite mod4_step. destruct IH as (IH1 & IH2 & IH3).
    split; [done|]. split; [done|].
    cbn [Nat.add]. by rewrite mod4_step.
Qed.

Lemma padding_for_cases (l : list ascii) :
  padding_for l = [] \/ padding_for l = ["="%char] \/
  padding_for l = ["="%char; "="%char].
Proof.
  induction l as [|a|a b|a b c r IH] using list_ind3; simpl; auto.
Qed.

Lemma padding_for_equals (l : list ascii) :
  Forall (fun c => c = "="%char) (padding_for l).
Proof.
  induction l as [|a|a b|a b c r IH] using list_ind3; simpl; repeat constructor.
  done.
Qed.

(** With the padding in place only the padding is stripped. *)
Lemma strip_padding_encoded (ss : list Sextet) (tail : list ascii) :
  tail = [] \/ tail = ["="%char] \/ tail = ["="%char; "="%char] ->
  strip_padding (map char_of_sextet ss ++ tail) = map char_of_sextet ss.
Proof.
  intros Htail. unfold strip_padding. rewrite rev_app_distr.
  assert (Hbody : match rev (map char_of_sextet ss) with
                  | [] => True
                  | c :: _ => c <> "="%char
                  end).
  { rewrite <- map_rev. destruct (rev ss) as [|s r]; [done|]. simpl.
    by destruct (char_of_sextet_plain s) as [(_ & ? & _) _]. }
  destruct Htail as [-> | [-> | ->]]; simpl.
  - rewrite app_nil_r.
    destruct (rev (map char_of_sextet ss)) as [|c r] eqn:Hrev; [done|].
    destruct (Ascii.eqb_spec c "="); [done|].
    destruct c as [[] [] [] [] [] [] [] []]; try done.
  - destruct (rev (map char_of_sextet ss)) as [|c r] eqn:Hrev.
    + by rewrite <- (rev_involutive (map char_of_sextet ss)), Hrev.
    + destruct c as [[] [] [] [] [] [] [] []];
        try (by rewrite <- (rev_involutive (map char_of_sextet ss)), Hrev).
  - by rewrite rev_involutive.
Qed.

(** [atob] undoes the padded standard encoding. *)
Lemma atob_base64 (text : string) :
  atob (string_of_list_ascii (base64_chars true (list_ascii_of_string text)))
  = Ok text.
Proof.
  unfold atob, base64_chars.
  set (l := list_ascii_of_string text).
  rewrite list_ascii_of_string_of_list_ascii.
  destruct (encode_groups_length l) as (Hne1 & _ & Hlen).
  rewrite filter_plain by apply padding_for_equals.
  rewrite length_app, length_map, Hlen.
  change (0 =? 0)%nat with true. cbv iota.
  rewrite strip_padding_encoded by apply padding_for_cases.
  rewrite length_map.
  destruct (Nat.eqb_spec (length (encode_groups l) mod 4) 1); [done|].
  rewrite sextets_of_alphabet, decode_encode_groups.
  subst l. by rewrite string_of_list_ascii_of_string.
Qed.

(** ** From the path segment to the text *)

Lemma replace_all_list (a b : ascii) (l : list ascii) :
  replace_all a b (string_of_list_ascii l)
  = string_of_list_ascii (map (fun c => if Ascii.eqb c a then b else c) l).
Proof. induction l as [|c l IH]; simpl; [done | by rewrite IH]. Qed.

Lemma string_length_of_list (l : list ascii) :
  String.length (string_of_list_ascii l) = length l.
Proof. induction l as [|c l IH]; simpl; [done | by rewrite IH]. Qed.

Lemma string_of_list_app (l1 l2 : list ascii) :
  string_of_list_ascii (l1 ++ l2)
  = string_of_list_ascii l1 +:+ string_of_list_ascii l2.
Proof. induction l1 as [|c l1 IH]; simpl; [done | by rewrite IH]. Qed.

Lemma from_to_url_safe (c : ascii) :
  c <> "-"%char -> c <> "_"%char -> from_url_safe (to_url_safe c) = c.
Proof.
  intros H1 H2. unfold from_url_safe, to_url_safe.
  destruct (Ascii.eqb_spec c "+") as [-> | Hp]; [done|].
  destruct (Ascii.eqb_spec c "/") as [-> | Hs]; [done|].
  destruct (Ascii.eqb_spec c "-"); [done|].
  by destruct (Ascii.eqb_spec c "_").
Qed.

Lemma base64_chars_no_url_char (l : list ascii) :
  Forall (fun c => c <> "-"%char /\ c <> "_"%char) (base64_chars true l).
Proof.
  unfold base64_chars. apply Forall_app. split.
  - apply List.Forall_forall. intros c Hc. apply in_map_iff in Hc as (s & <- & _).
    by destruct (char_of_sextet_plain s) as [(_ & _ & ? & ?) _].
  - eapply Forall_impl; [apply padding_for_equals|]. by intros c ->.
Qed.

Lemma map_from_to_url_safe (l : list ascii) :
  Forall (fun c => c <> "-"%char /\ c <> "_"%char) l ->
  map from_url_safe (map to_url_safe l) = l.
Proof.
  induction 1 as [|c l [H1 H2] _ IH]; simpl; [done|].
  by rewrite from_to_url_safe, IH.
Qed.

Lemma to_url_safe_equals (l : list ascii) :
  Forall (fun c => c = "="%char) l -> map to_url_safe l = l.
Proof. induction 1 as [|c l -> _ IH]; simpl; [done | by rewrite IH]. Qed.

(** Padding the segment to a multiple of four gives the padded encoding,
    whether or not the encoder had padded it. *)
Lemma pad4_encoded (pad : bool) (text : string) :
  pad4 (base64url_encode pad text)
  = string_of_list_ascii
      (map to_url_safe (base64_chars true (list_ascii_of_string text))).
Proof.
  unfold pad4, base64url_encode. rewrite !replace_all_list, map_map.
  fold to_url_safe. change (fun x => to_url_safe x) with to_url_safe.
  rewrite string_length_of_list, length_map, <- string_of_list_app.
  f_equal. set (l := list_ascii_of_string text).
  destruct (encode_groups_length l) as (_ & Hpad & Hlen).
  unfold base64_chars. destruct pad.
  - rewrite length_app, length_map, Hlen. simpl. by rewrite app_nil_r.
  - rewrite app_nil_r, length_map, Hpad, !map_app. f_equal.
    by rewrite to_url_safe_equals by apply padding_for_equals.
Qed.

(** The handler recovers the text from its URL-safe encoding. *)
Lemma segment_text_encoded (pad : bool) (text : string) :
  segment_text (base64url_encode pad text) = Ok text.
Proof.
  unfold segment_text. rewrite pad4_encoded, !replace_all_list, map_map.
  fold from_url_safe. change (fun x => from_url_safe x) with from_url_safe.
  rewrite map_from_to_url_safe by apply base64_chars_no_url_char.
  apply atob_base64.
Qed.

(** ** Splitting the text *)

Lemma split_nonempty (sep : ascii) (s : string) : split sep s <> [].
Proof.
  destruct s as [|c r]; simpl; [done|].
  destruct (Ascii.eqb c sep); [done|]. by destruct (split sep r).
Qed.

Lemma split_prefix (sep : ascii) (p rest : string) :
  has_char sep p = false ->
  split sep (p +:+ String sep rest) = p :: split sep rest.
Proof.
  induction p as [|c p IH]; simpl; intros Hp.
  - by rewrite Ascii.eqb_refl.
  - apply orb_false_iff in Hp as [-> Hp]. by rewrite IH.
Qed.

Lemma join_cons_char (sep : string) (c : ascii) (h : string) (t : list string) :
  join sep (String c h :: t) = String c (join sep (h :: t)).
Proof. by destruct t. Qed.

Lemma join_split (sep : ascii) (s : string) :
  join (String sep EmptyString) (split sep s) = s.
Proof.
  induction s as [|c r IH]; simpl; [done|].
  destruct (Ascii.eqb_spec c sep) as [-> | Hc].
  - destruct (split sep r) as [|h t] eqn:Hs; [by apply split_nonempty in Hs|].
    simpl in *. by rewrite IH.
  - destruct (split sep r) as [|h t] eqn:Hs; [by apply split_nonempty in Hs|].
    by rewrite join_cons_char, IH.
Qed.

Lemma split_length_pos (sep : ascii) (s : string) :
  (1 <= length (split sep s))%nat.
Proof.
  pose proof (split_nonempty sep s). destruct (split sep s); [done | simpl; lia].
Qed.

Lemma split_two_parts (sep : ascii) (t i : string) :
  (2 <= length (split sep (t +:+ String sep i)))%nat.
Proof.
  induction t as [|c t IH]; simpl.
  - rewrite Ascii.eqb_refl. simpl. pose proof (split_length_pos sep i). lia.
  - destruct (Ascii.eqb c sep); simpl.
    + pose proof (split_length_pos sep (t +:+ String sep i)). lia.
    + destruct (split sep (t +:+ String sep i)); simpl in *; lia.
Qed.

Lemma includes_middle (p rest : string) (c : ascii) :
  includes (p +:+ String c rest) (String c EmptyString) = true.
Proof. apply includes_spec. by exists p, rest. Qed.

(** What the [try] block makes of a segment that stands for [p:t:i], when
    the platform name has no colon. *)
Lemma decode_block_triple (segment p t i : string) :
  segment_text segment = Ok (triple p t i) ->
  no_colon p ->
  exists type id,
    (no_colon t -> type = t /\ id = i) /\
    decode_block segment =
      if startsWith (triple p t i) "http" then MusicUrl None
      else match reconstructMusicUrl p type id with
           | Some musicUrl => MusicUrl (Some musicUrl)
           | None => Unsupported p
           end.
Proof.
  intros Htext Hp. unfold decode_block. fold (segment_text segment).
  rewrite Htext.
  change (triple p t i) with (p +:+ String ":" (t +:+ String ":" i)).
  rewrite includes_middle, (split_prefix _ _ _ Hp).
  destruct (split ":" (t +:+ String ":" i)) as [|type parts] eqn:Hsplit;
    [by apply split_nonempty in Hsplit|].
  exists type, (join ":" parts). split.
  - intros Ht. rewrite (split_prefix _ _ _ Ht) in Hsplit.
    injection Hsplit as <- <-. split; [done | apply join_split].
  - destruct (startsWith _ "http"); [done|]. simpl.
    pose proof (split_two_parts ":" t i) as Hlen. rewrite Hsplit in Hlen.
    simpl in Hlen. destruct parts as [|x parts]; [simpl in Hlen; lia | done].
Qed.

(** ** The platform table *)

(** [reconstructMusicUrl] answers the canonical URL of a supported platform;
    for any other name it answers what the object literal inherits under that
    name, if anything. *)
Lemma reconstructMusicUrl_spec (p t i : string) :
  reconstructMusicUrl p t i =
    match canonical_url p t i with
    | Some url => Some (VStr url)
    | None =>
      if existsb (String.eqb (toLowerCase p)) Object_prototype_members
      then Some (VProto (toLowerCase p)) else None
    end.
Proof.
  unfold reconstructMusicUrl, canonical_url, property_get. cbv zeta.
  set (k := toLowerCase p). cbn [own_property].
  rewrite !(String.eqb_sym _ k).
  repeat (destruct (String.eqb k _); [reflexivity|]).
  by destruct (existsb _ _).
Qed.

Lemma canonical_url_supported (p t i : string) :
  supported p <-> canonical_url p t i <> None.
Proof.
  unfold supported, canonical_url, supported_platforms. cbv zeta.
  set (k := toLowerCase p). split.
  - intros Hin. simpl in Hin.
    repeat (destruct Hin as [<- | Hin]; [done|]). done.
  - clearbody k. simpl.
    repeat match goal with
           | |- context [String.eqb k ?x] =>
             destruct (String.eqb_spec k x) as [-> | _]; [intros _; auto 10|]
           end.
    congruence.
Qed.

Lemma lower_char_fixes (a c : ascii) :
  lower_char a = a -> lower_char c <> a -> Ascii.eqb c a = false.
Proof.
  intros Ha Hc. destruct (Ascii.eqb_spec c a) as [-> | ]; [by rewrite Ha in Hc | done].
Qed.

Lemma lower_char_colon (c : ascii) : Ascii.eqb (lower_char c) ":" = Ascii.eqb c ":".
Proof. destruct c as [[] [] [] [] [] [] [] []]; reflexivity. Qed.

Lemma has_colon_lower (s : string) : has_char ":" (toLowerCase s) = has_char ":" s.
Proof.
  induction s as [|c s IH]; simpl; [done|]. by rewrite lower_char_colon, IH.
Qed.

Lemma supported_no_colon (p : string) : supported p -> no_colon p.
Proof.
  unfold supported, no_colon. rewrite <- has_colon_lower.
  intros Hin. simpl in Hin.
  repeat (destruct Hin as [<- | Hin]; [reflexivity|]). done.
Qed.

(** A supported name never makes the text start with [http]. *)
Lemma supported_not_http (p rest : string) :
  supported p -> startsWith (p +:+ rest) "http" = false.
Proof.
  intros Hin. destruct p as [|c p]; [by repeat destruct Hin as [Hin | Hin]|].
  change (String c p +:+ rest) with (String c (p +:+ rest)).
  cbn [startsWith].
  assert (Hc : Ascii.eqb "h" c = false); [|by rewrite Hc].
  rewrite Ascii.eqb_sym. apply lower_char_fixes; [reflexivity|].
  unfold supported in Hin. simpl in Hin.
  repeat (destruct Hin as [Hin | Hin]; [injection Hin as <- _; discriminate|]).
  done.
Qed.

(** The round trip where it holds.  For every supported platform [p], in any
    letter case, every type [t], read as the field between the first two
    colons, and every id [i], colons or not, decoding the URL-safe Base64
    encoding of [p:t:i], padded or not, gives the canonical URL of the
    platform's template.  For every name [p] without a colon that is not
    supported and is not a member of [Object.prototype], it gives nothing. *)
Theorem decode_roundtrip (pad : bool) (p t i : string) :
  (supported p -> no_colon t ->
   decode (base64url_encode pad (triple p t i)) = VStr <$> canonical_url p t i /\
   canonical_url p t i <> None) /\
  (~ supported p -> no_colon p ->
   ~ In (toLowerCase p) Object_prototype_members ->
   decode (base64url_encode pad (triple p t i)) = None).
Proof.
  pose proof (segment_text_encoded pad (triple p t i)) as Htext.
  split.
  - intros Hsup Ht.
    destruct (decode_block_triple _ _ _ _ Htext (supported_no_colon _ Hsup))
      as (type & id & Hti & Hblock).
    destruct (Hti Ht) as [-> ->].
    pose proof (proj1 (canonical_url_supported p t i) Hsup) as Hurl.
    split; [|done]. unfold decode. rewrite Hblock.
    unfold triple. rewrite (supported_not_http _ _ Hsup).
    rewrite reconstructMusicUrl_spec.
    by destruct (canonical_url p t i).
  - intros Hsup Hp Hproto.
    destruct (decode_block_triple _ _ _ _ Htext Hp) as (type & id & _ & Hblock).
    unfold decode. rewrite Hblock.
    destruct (startsWith _ _); [done|].
    rewrite reconstructMusicUrl_spec.
    destruct (canonical_url p type id) eqn:Hurl.
    { exfalso. apply Hsup, (canonical_url_supported p type id). by rewrite Hurl. }
    destruct (existsb _ _) eqn:Hex; [|done].
    exfalso. apply Hproto. apply existsb_exists in Hex as (x & Hx & Heq).
    by apply String.eqb_eq in Heq as ->.
Qed.

(** The names the object literal inherits are not platform names, hold no
    colon and do not begin with [http]. *)
Lemma inherited_not_supported (p : string) :
  In (toLowerCase p) Object_prototype_members -> ~ supported p.
Proof.
  unfold supported. set (k := toLowerCase p). clearbody k. simpl.
  intros Hin Hsup.
  repeat (destruct Hin as [<- | Hin];
          [repeat (destruct Hsup as [Hsup | Hsup]; [discriminate|]); done|]).
  done.
Qed.

Lemma inherited_no_colon (p : string) :
  In (toLowerCase p) Object_prototype_members -> no_colon p.
Proof.
  unfold no_colon. rewrite <- has_colon_lower. intros Hin. simpl in Hin.
  repeat (destruct Hin as [<- | Hin]; [reflexivity|]). done.
Qed.

Lemma inherited_not_http (p rest : string) :
  In (toLowerCase p) Object_prototype_members ->
  startsWith (p +:+ rest) "http" = false.
Proof.
  intros Hin.
  destruct p as [|c1 [|c2 p]];
    [by repeat destruct Hin as [Hin | Hin]
    |by repeat destruct Hin as [Hin | Hin] |].
  change (String c1 (String c2 p) +:+ rest) with (String c1 (String c2 (p +:+ rest))).
  cbn [startsWith].
  destruct (Ascii.eqb_spec "h" c1) as [<- | _]; [|done].
  destruct (Ascii.eqb_spec "t" c2) as [<- | _]; [|done].
  exfalso. simpl in Hin.
  repeat (destruct Hin as [Hin | Hin]; [discriminate|]). done.
Qed.

(** C6, where the code departs from it.  A platform name that, lower-cased,
    is a member the object literal inherits from [Object.prototype]
    ([constructor], [__proto__]) is not a supported platform, and yet decoding
    the URL-safe Base64 encoding of [p:t:i], padded or not, does not give
    [null]: it gives the inherited member, for every type and id. *)
Theorem inherited_member_is_not_null (pad : bool) (p t i : string) :
  In (toLowerCase p) Object_prototype_members ->
  ~ supported p /\
  decode (base64url_encode pad (triple p t i)) = Some (VProto (toLowerCase p)).
Proof.
  intros Hin. pose proof (inherited_not_supported p Hin) as Hsup.
  split; [done|].
  pose proof (segment_text_encoded pad (triple p t i)) as Htext.
  destruct (decode_block_triple _ _ _ _ Htext (inherited_no_colon p Hin))
    as (type & id & _ & Hblock).
  unfold decode. rewrite Hblock. unfold triple.
  rewrite (inherited_not_http _ _ Hin), reconstructMusicUrl_spec.
  destruct (canonical_url p type id) eqn:Hurl.
  { exfalso. apply Hsup, (canonical_url_supported p type id). by rewrite Hurl. }
  assert (Hex : existsb (String.eqb (toLowerCase p)) Object_prototype_members = true).
  { apply existsb_exists. exists (toLowerCase p). split; [done | apply String.eqb_refl]. }
  by rewrite Hex.
Qed.

(** A name that the table inherits from [Object.prototype] is not turned
    into [null]: the lookup answers the inherited member. *)
Example decode_inherited_member :
  decode (base64url_encode false "constructor:track:123")
  = Some (VProto "constructor").
Proof. vm_compute. reflexivity. Qed.

Example decode_spotify :
  decode "c3BvdGlmeTp0cmFjazoxMjM=" = Some (VStr "https://open.spotify.com/track/123").
Proof. vm_compute. reflexivity. Qed.

Example decode_tidal :
  decode "dGlkYWw6YWxidW06NDU2" = Some (VStr "https://tidal.com/browse/album/456").
Proof. vm_compute. reflexivity. Qed.

Section HandlerFacts.
Context {W : Type} (P : Platform W).
Context (getErrorPage : string -> string).
Context (bot human : JsVal -> Json -> Config -> Response).

(** The handler answers a share link whose segment stands for [p:t:i], with
    [p] free of colons, not supported and not a member of [Object.prototype],
    with status 400 and the page for an unsupported platform, without any
    call to the store or the upstream. *)
Lemma handleShareLink_unsupported (pathname : string) (request : Request)
    (config : Config) (env : Env W) (m : Machine W) (p t i : string) :
  segment_text (substring_from 3 pathname) = Ok (triple p t i) ->
  no_colon p ->
  ~ supported p ->
  ~ In (toLowerCase p) Object_prototype_members ->
  exists body,
    handleShareLink P getErrorPage bot human pathname request config env m
    = (Ok (mkHttp 400 body), m).
Proof.
  intros Htext Hp Hsup Hproto. unfold handleShareLink.
  destruct (decode_block_triple _ _ _ _ Htext Hp) as (type & id & _ & ->).
  destruct (startsWith _ _); [by eexists|].
  rewrite reconstructMusicUrl_spec.
  destruct (canonical_url p type id) eqn:Hurl.
  { exfalso. apply Hsup, (canonical_url_supported p type id). by rewrite Hurl. }
  destruct (existsb _ _) eqn:Hex; [|by eexists].
  exfalso. apply Hproto. apply existsb_exists in Hex as (x & Hx & Heq).
  by apply String.eqb_eq in Heq as ->.
Qed.

End HandlerFacts.

(** * The theorems at concrete inputs *)

Lemma checkLimit_fail_open_witness :
  fst (kv_get (@broken_kv RateText) "ratelimit:1.2.3.4" empty_world) = Throw /\
  fst (checkLimit mem_platform "1.2.3.4" (Some broken_kv) (mkMachine empty_world []))
  = Ok allow.
Proof.
  split; [reflexivity|].
  apply (checkLimit_fail_open mem_platform "1.2.3.4" broken_kv (mkMachine empty_world [])).
  left. reflexivity.
Defined.

Lemma checkLimit_algorithm_witness :
  kv_get mem_kv "ratelimit:1.2.3.4" (set_clock 1000 empty_world)
  = (Ok None, set_clock 1000 empty_world) /\
  fst (checkLimit mem_platform "1.2.3.4" (Some mem_kv)
                  (mkMachine (set_clock 1000 empty_world) []))
  = Ok (mkLimit true None).
Proof.
  split; [reflexivity|].
  destruct (checkLimit_algorithm mem_platform "1.2.3.4" mem_kv
              (mkMachine (set_clock 1000 empty_world) []) None
              (set_clock 1000 empty_world))
    as (_ & Hallow & _).
  - discriminate.
  - reflexivity.
  - discriminate.
  - intros v. reflexivity.
  - rewrite Hallow; [reflexivity|]. vm_compute. discriminate.
Defined.

Lemma token_bucket_bounds_witness :
  persisted "1.2.3.4" drained_world = Some (mkState 0 0 60) /\
  Forall (fun w' => exists s, persisted "1.2.3.4" w' = Some s /\ 0 <= tokens s <= 60)
         (worlds_after "1.2.3.4" [900; 1000; 5000] drained_world).
Proof.
  split; [reflexivity|].
  apply (token_bucket_bounds "1.2.3.4" (mkState 0 0 60) drained_world [900; 1000; 5000]).
  - discriminate.
  - reflexivity.
  - vm_compute. split; discriminate.
Defined.

Lemma refill_since_lastRefill_witness :
  exists s',
    trace (snd (checkLimit mem_platform "1.2.3.4" (Some mem_kv)
                           (mkMachine (set_clock 2500 drained_world) []))) =
      [EvGet "ratelimit:1.2.3.4"; EvPutRate "ratelimit:1.2.3.4" (TextOfState s') 120] /\
    tokens s' = 1 /\
    lastRefill s' = 2500.
Proof.
  apply (refill_since_lastRefill mem_platform "1.2.3.4" mem_kv
           (mkMachine (set_clock 2500 drained_world) []) (mkState 0 0 60)
           (set_clock 2500 drained_world)).
  - discriminate.
  - reflexivity.
  - vm_compute. discriminate.
  - vm_compute. discriminate.
Defined.

Lemma empty_forwarded_entry_witness :
  trim (hd "" (split "," ",1.2.3.4")) = "" /\
  getClientIp (forwarded_request ",1.2.3.4") = "" /\
  checkLimit mem_platform (getClientIp (forwarded_request ",1.2.3.4"))
             (Some mem_kv) (mkMachine empty_world [])
  = (Ok allow, mkMachine empty_world []).
Proof.
  split; [reflexivity|].
  apply (empty_forwarded_entry_bypasses_limit mem_platform
           (forwarded_request ",1.2.3.4") ",1.2.3.4" (Some mem_kv)
           (mkMachine empty_world [])).
  - reflexivity.
  - reflexivity.
  - discriminate.
  - reflexivity.
Defined.

Lemma cache_freshness_boundary_witness :
  kv_get cache_kv "metadata:abc" fresh_entry_world
  = (Ok (Some (mkCached (JStr "cached") 1000)), fresh_entry_world) /\
  served_from_cache mem_platform mem_env spotify_track "abc" sample_config
                    (mkMachine fresh_entry_world []) (mkCached (JStr "cached") 1000).
Proof.
  split; [reflexivity|].
  destruct (cache_freshness_boundary mem_platform mem_env cache_kv spotify_track
              "abc" sample_config (mkMachine fresh_entry_world [])
              (mkCached (JStr "cached") 1000) fresh_entry_world)
    as (_ & _ & Hserved & _).
  - reflexivity.
  - reflexivity.
  - apply Hserved; [discriminate | reflexivity].
Defined.

Lemma cache_read_exception_witness :
  fst (kv_get (@broken_kv CachedMetadata) "metadata:abc" empty_world) = Throw /\
  fst (fetchAndCacheMetadata mem_platform spotify_track "abc" sample_config
                             (mkEnv None (Some broken_kv))
                             (mkMachine empty_world [])) = Throw.
Proof.
  split; [reflexivity|].
  apply (cache_read_exception_propagates mem_platform (mkEnv None (Some broken_kv))
           broken_kv spotify_track "abc" sample_config (mkMachine empty_world [])).
  - reflexivity.
  - reflexivity.
Defined.

Lemma decode_roundtrip_witness :
  decode (base64url_encode false (triple "Spotify" "track" "4uLU6:hMCj"))
  = Some (VStr "https://open.spotify.com/track/4uLU6:hMCj").
Proof.
  destruct (decode_roundtrip false "Spotify" "track" "4uLU6:hMCj") as [Hsup _].
  destruct Hsup as [Hdec _].
  - left. reflexivity.
  - reflexivity.
  - exact Hdec.
Defined.

Lemma inherited_member_is_not_null_witness :
  ~ supported "constructor" /\
  decode (base64url_encode false (triple "constructor" "track" "123"))
  = Some (VProto "constructor").
Proof.
  apply (inherited_member_is_not_null false "constructor" "track" "123").
  left. reflexivity.
Defined.

(** * Further properties of the rate limiter *)

(** A check against a store that can be read, flattened. *)
Lemma check_at_step clientIp t w :
  clientIp <> "" -> readable clientIp w ->
  exists s0,
    read_state t (live t (entries w !! ("ratelimit:" +:+ clientIp))) = Some s0 /\
    check_at clientIp t w =
      (Ok (answer (refill t s0)),
       mkMem t (<["ratelimit:" +:+ clientIp :=
                   (TextOfState (written (refill t s0)), t + 120 * 1000)]>
                (entries w)) (cache w) (upstream w)).
Proof.
  intros Hip Hr. unfold readable in Hr.
  set (key := "ratelimit:" +:+ clientIp) in *.
  assert (Hget : kv_get mem_kv key (world (mkMachine (set_clock t w) [])) =
                 (Ok (live t (entries w !! key)), set_clock t w)) by reflexivity.
  assert (Hs0 : exists s0, read_state t (live t (entries w !! key)) = Some s0).
  { unfold live. destruct (entries w !! key) as [[[s| |] expiry]|];
      try destruct (t <? expiry); simpl; eauto; done. }
  destruct Hs0 as (s0 & Hread). exists s0. split; [done|].
  unfold check_at.
  rewrite (checkLimit_run mem_platform _ _ _ _ _ _ Hip Hget Hread).
  reflexivity.
Qed.

Lemma floor_split (a b : Z) : a / 1000 + b / 1000 <= (a + b) / 1000.
Proof. Z.div_mod_to_equations. lia. Qed.

(** Refilling at [now <= T] does not raise the potential. *)
Lemma refill_potential T now s :
  lastRefill s <= now -> now <= T ->
  potential T (refill now s) <= potential T s /\
  lastRefill (refill now s) <= now /\
  (0 <= tokens s -> 0 <= tokens (refill now s)) /\
  tokens (refill now s) <= Z.max (tokens s) 60.
Proof.
  intros H1 H2. unfold potential, refill, tokensToAdd, REFILL_RATE, MAX_TOKENS.
  rewrite Z.mul_1_r.
  destruct (Z.ltb_spec 0 ((now - lastRefill s) / 1000)); simpl.
  - pose proof (floor_split (now - lastRefill s) (T - now)).
    replace (now - lastRefill s + (T - now)) with (T - lastRefill s) in * by lia.
    lia.
  - lia.
Qed.

(** The first refill of a run leaves at most 61 tokens' worth. *)
Lemma refill_first_potential T t0 s :
  in_bounds s -> lastRefill s <= t0 -> t0 <= T ->
  potential T (refill t0 s) <= 61 + (T - t0) / 1000.
Proof.
  unfold potential, refill, tokensToAdd, REFILL_RATE, MAX_TOKENS, in_bounds.
  intros Hb Hl HT. rewrite Z.mul_1_r.
  destruct (Z.ltb_spec 0 ((t0 - lastRefill s) / 1000));
    cbn [tokens lastRefill requestCount].
  - lia.
  - assert ((T - lastRefill s) / 1000 <= (T - t0) / 1000 + 1).
    { Z.div_mod_to_equations. lia. }
    unfold MAX_TOKENS in *. lia.
Qed.

Lemma written_potential T s :
  passed (Ok (answer s)) + potential T (written s) = potential T s /\
  lastRefill (written s) = lastRefill s.
Proof.
  unfold potential, written, answer.
  destruct (1 <=? tokens s); simpl; split; lia.
Qed.

(** One more check of a client checked before: the admission is paid for out
    of the potential. *)
Lemma check_at_potential clientIp T t t' w s :
  clientIp <> "" -> checked_at clientIp t w s -> t <= t' -> t' <= T ->
  exists s',
    checked_at clientIp t' (snd (check_at clientIp t' w)) s' /\
    passed (fst (check_at clientIp t' w)) + potential T s' <= potential T s.
Proof.
  intros Hip (Hentry & Hb & Hlast) Htt HT.
  assert (Hr : readable clientIp w) by (unfold readable; by rewrite Hentry).
  destruct (check_at_step clientIp t' w Hip Hr) as (s0 & Hread & ->).
  rewrite Hentry in Hread. simpl in Hread.
  exists (written (refill t' s0)).
  assert (Hs0 : in_bounds s0 /\ lastRefill s0 <= t' /\ potential T s0 <= potential T s).
  { destruct (Z.ltb_spec t' (t + 120 * 1000)); simpl in Hread;
      injection Hread as <-.
    - unfold in_bounds, MAX_TOKENS in *. lia.
    - unfold in_bounds, potential, MAX_TOKENS in *. simpl.
      repeat split; try lia.
      assert ((T - t') / 1000 + 120 <= (T - lastRefill s) / 1000).
      { Z.div_mod_to_equations. lia. }
      lia. }
  destruct Hs0 as (Hb0 & Hl0 & Hp0).
  destruct (refill_potential T t' s0 Hl0 HT) as (Hp1 & Hl1 & _ & _).
  destruct (written_potential T (refill t' s0)) as (Hp2 & Hl2).
  split.
  - unfold checked_at. simpl. rewrite lookup_insert_eq. split; [done|].
    split; [by apply written_in_bounds, refill_in_bounds | lia].
  - cbn [fst]. lia.
Qed.

Lemma count_passed_cons clientIp t rest w :
  count_passed clientIp (t :: rest) w =
  passed (fst (check_at clientIp t w)) +
  count_passed clientIp rest (snd (check_at clientIp t w)).
Proof. reflexivity. Qed.

Lemma final_nondecreasing t times : nondecreasing t times -> t <= final t times.
Proof.
  revert t. induction times as [|x rest IH]; intros t; simpl; [lia|].
  intros [Hx Hrest]. specialize (IH x Hrest). lia.
Qed.

(** The admissions of a run are covered by the potential of the state it
    starts from. *)
Lemma run_potential clientIp T times :
  clientIp <> "" ->
  forall t w s,
    checked_at clientIp t w s -> nondecreasing t times -> final t times <= T ->
    count_passed clientIp times w <= potential T s.
Proof.
  intros Hip. induction times as [|t' rest IH]; intros t w s Hc Hnd HT.
  - unfold count_passed. simpl. destruct Hc as (_ & Hb & Hl).
    unfold potential, in_bounds in *. simpl in HT.
    assert (0 <= (T - lastRefill s) / 1000) by (apply Z.div_pos; lia). lia.
  - destruct Hnd as [Htt Hnd]. rewrite count_passed_cons. simpl in HT.
    pose proof (final_nondecreasing _ _ Hnd) as Hlast.
    destruct (check_at_potential clientIp T t t' w s Hip Hc Htt ltac:(lia))
      as (s' & Hc' & Hpay).
    specialize (IH t' _ s' Hc' Hnd HT). lia.
Qed.

(** The first check of a client the store does not know. *)
Lemma first_check_unknown clientIp t w :
  clientIp <> "" -> unknown_client clientIp w ->
  fst (check_at clientIp t w) = Ok allow /\
  checked_at clientIp t (snd (check_at clientIp t w)) (mkState 59 t 1).
Proof.
  intros Hip Hu. unfold unknown_client in Hu.
  assert (Hr : readable clientIp w) by (unfold readable; by rewrite Hu).
  destruct (check_at_step clientIp t w Hip Hr) as (s0 & Hread & ->).
  rewrite Hu in Hread. simpl in Hread. injection Hread as <-.
  assert (Hrefill : refill t (mkState 60 t 0) = mkState 60 t 0).
  { unfold refill, tokensToAdd. simpl. by rewrite Z.sub_diag. }
  rewrite Hrefill. split; [reflexivity|].
  unfold checked_at. simpl. rewrite lookup_insert_eq.
  split; [reflexivity|]. unfold in_bounds, MAX_TOKENS. simpl. lia.
Qed.

(** X1.  A client with a non-empty IP that the store does not know is let
    through at most [60 + floor(elapsed / 1000)] times over any run of checks
    at clock readings that never go back, [elapsed] being the milliseconds
    between the first and the last check; the expiry of the stored state in
    between does not raise the bound. *)
Theorem admissions_bounded_for_unknown_client (clientIp : string) (w : MemWorld)
    (t0 : Z) (times : list Z) :
  clientIp <> "" ->
  unknown_client clientIp w ->
  nondecreasing t0 times ->
  count_passed clientIp (t0 :: times) w <= 60 + (final t0 times - t0) / 1000.
Proof.
  intros Hip Hu Hnd. rewrite count_passed_cons.
  destruct (first_check_unknown clientIp t0 w Hip Hu) as [-> Hc].
  pose proof (run_potential clientIp (final t0 times) times Hip t0 _ _ Hc Hnd
                ltac:(lia)) as Hrun.
  unfold potential in Hrun. simpl in *. lia.
Qed.

(** X2.  A client whose stored state is within bounds and was last refilled
    no later than the first check is let through at most
    [61 + floor(elapsed / 1000)] times over such a run: the fraction of a
    second already elapsed since [lastRefill] can be worth one more token. *)
Theorem admissions_bounded_for_known_client (clientIp : string) (w : MemWorld)
    (t0 : Z) (times : list Z) :
  clientIp <> "" ->
  known_client clientIp t0 w ->
  nondecreasing t0 times ->
  count_passed clientIp (t0 :: times) w <= 61 + (final t0 times - t0) / 1000.
Proof.
  intros Hip (s & expiry & Hentry & Hb & Hlast) Hnd. rewrite count_passed_cons.
  assert (Hr : readable clientIp w) by (unfold readable; by rewrite Hentry).
  destruct (check_at_step clientIp t0 w Hip Hr) as (s0 & Hread & Hstep).
  rewrite Hentry in Hread. simpl in Hread.
  pose proof (final_nondecreasing _ _ Hnd) as Hfinal.
  set (T := final t0 times) in *.
  assert (Hs0 : in_bounds s0 /\ lastRefill s0 <= t0).
  { destruct (t0 <? expiry); injection Hread as <-; [done|].
    unfold in_bounds, MAX_TOKENS. simpl. lia. }
  destruct Hs0 as [Hb0 Hl0].
  set (s1 := refill t0 s0).
  assert (Hs1 : in_bounds s1 /\ lastRefill s1 <= t0 /\
                potential T s1 <= 61 + (T - t0) / 1000).
  { split; [by apply refill_in_bounds|].
    destruct (refill_potential T t0 s0 Hl0 Hfinal) as (_ & Hl & _ & _).
    split; [done|]. by apply refill_first_potential. }
  destruct Hs1 as (Hb1 & Hl1 & Hp1).
  destruct (written_potential T s1) as (Hp2 & Hl2).
  assert (Hc : checked_at clientIp t0 (snd (check_at clientIp t0 w)) (written s1)).
  { rewrite Hstep. unfold checked_at. simpl. rewrite lookup_insert_eq.
    split; [done|]. split; [by apply written_in_bounds | lia]. }
  pose proof (run_potential clientIp T times Hip t0 _ _ Hc Hnd ltac:(lia)) as Hrun.
  assert (Hfst : fst (check_at clientIp t0 w) = Ok (answer s1)) by (by rewrite Hstep).
  rewrite Hfst. lia.
Qed.

(** The first check of a client the store knows. *)
Lemma check_at_known clientIp t w :
  clientIp <> "" -> known_client clientIp t w ->
  exists s1,
    in_bounds s1 /\ lastRefill s1 <= t /\
    fst (check_at clientIp t w) = Ok (answer s1) /\
    checked_at clientIp t (snd (check_at clientIp t w)) (written s1).
Proof.
  intros Hip (s & expiry & Hentry & Hb & Hlast).
  assert (Hr : readable clientIp w) by (unfold readable; by rewrite Hentry).
  destruct (check_at_step clientIp t w Hip Hr) as (s0 & Hread & Hstep).
  rewrite Hentry in Hread. simpl in Hread.
  assert (Hs0 : in_bounds s0 /\ lastRefill s0 <= t).
  { destruct (t <? expiry); injection Hread as <-; [done|].
    unfold in_bounds, MAX_TOKENS. simpl. lia. }
  destruct Hs0 as [Hb0 Hl0].
  destruct (refill_potential t t s0 Hl0 ltac:(lia)) as (_ & Hl1 & _ & _).
  destruct (written_potential t (refill t s0)) as (_ & Hl2).
  exists (refill t s0). split; [by apply refill_in_bounds|]. split; [done|].
  rewrite Hstep. split; [done|].
  unfold checked_at. simpl. rewrite lookup_insert_eq.
  split; [done|]. split; [by apply written_in_bounds, refill_in_bounds | lia].
Qed.

(** A check at least one second after the last refill finds a token. *)
Lemma check_after_a_second clientIp t t' w s :
  clientIp <> "" -> checked_at clientIp t w s -> lastRefill s + 1000 <= t' ->
  fst (check_at clientIp t' w) = Ok allow.
Proof.
  intros Hip (Hentry & Hb & Hlast) Hwait.
  assert (Hr : readable clientIp w) by (unfold readable; by rewrite Hentry).
  destruct (check_at_step clientIp t' w Hip Hr) as (s0 & Hread & ->).
  rewrite Hentry in Hread. simpl in Hread. cbn [fst]. f_equal.
  unfold answer, allow.
  assert (Hge : 1 <= tokens (refill t' s0)); [|by destruct (Z.leb_spec 1 (tokens (refill t' s0))); [|lia]].
  unfold in_bounds, MAX_TOKENS in Hb.
  destruct (t' <? t + 120 * 1000); injection Hread as <-.
  - unfold refill, tokensToAdd, REFILL_RATE, MAX_TOKENS. rewrite Z.mul_1_r.
    assert (1 <= (t' - lastRefill s) / 1000) by (Z.div_mod_to_equations; lia).
    destruct (Z.ltb_spec 0 ((t' - lastRefill s) / 1000)); simpl; lia.
  - unfold refill, tokensToAdd, MAX_TOKENS. simpl. rewrite Z.sub_diag. simpl. lia.
Qed.

(** X3.  The retry hint is enough for a client with a non-empty IP whose
    stored state is within bounds and was last refilled no later than [t]:
    when its check at [t] is denied, the next check of the same client, made
    at [t + 1000] or later, is allowed. *)
Theorem retry_after_one_second_is_allowed (clientIp : string) (w : MemWorld)
    (t t' : Z) :
  clientIp <> "" ->
  known_client clientIp t w ->
  fst (check_at clientIp t w) = Ok (mkLimit false (Some 1)) ->
  t + 1000 <= t' ->
  fst (check_at clientIp t' (snd (check_at clientIp t w))) = Ok (mkLimit true None).
Proof.
  intros Hip Hk Hdenied Hwait.
  destruct (check_at_known clientIp t w Hip Hk) as (s1 & Hb & Hl & Hans & Hc).
  destruct (written_potential t s1) as (_ & Hl2).
  apply (check_after_a_second clientIp t t' _ (written s1) Hip Hc). lia.
Qed.

(** A check at the clock reading of the previous one takes a token while
    there is one. *)
Lemma check_at_same_instant clientIp t w (k : nat) (c : Z) :
  clientIp <> "" -> (k <= 60)%nat ->
  checked_at clientIp t w (mkState (Z.of_nat k) t c) ->
  match k with
  | O => fst (check_at clientIp t w) = Ok deny /\
         checked_at clientIp t (snd (check_at clientIp t w)) (mkState 0 t c)
  | S k' => fst (check_at clientIp t w) = Ok allow /\
            checked_at clientIp t (snd (check_at clientIp t w))
                       (mkState (Z.of_nat k') t (c + 1))
  end.
Proof.
  intros Hip Hk (Hentry & Hb & Hlast).
  assert (Hr : readable clientIp w) by (unfold readable; by rewrite Hentry).
  destruct (check_at_step clientIp t w Hip Hr) as (s0 & Hread & ->).
  rewrite Hentry in Hread. simpl in Hread.
  assert (Hlive : (t <? t + 120 * 1000) = true) by (apply Z.ltb_lt; lia).
  rewrite Hlive in Hread. injection Hread as <-.
  assert (Hrefill : refill t (mkState (Z.of_nat k) t c) = mkState (Z.of_nat k) t c).
  { unfold refill, tokensToAdd. simpl. by rewrite Z.sub_diag. }
  rewrite Hrefill. unfold answer, written, checked_at, in_bounds, MAX_TOKENS.
  cbn [fst snd entries tokens lastRefill requestCount].
  rewrite lookup_insert_eq.
  destruct k as [|k'].
  - simpl. repeat split; lia.
  - destruct (Z.leb_spec 1 (Z.of_nat (S k'))); [|lia].
    cbn [tokens lastRefill requestCount].
    replace (Z.of_nat (S k') - 1) with (Z.of_nat k') by lia.
    repeat split; lia.
Qed.

Lemma burst_from (clientIp : string) (t : Z) (n : nat) :
  clientIp <> "" ->
  forall (k : nat) (c : Z) (w : MemWorld),
    (k <= 60)%nat ->
    checked_at clientIp t w (mkState (Z.of_nat k) t c) ->
    answers clientIp (repeat t n) w =
      repeat (Ok allow) (Nat.min n k) ++ repeat (Ok deny) (n - k).
Proof.
  intros Hip. induction n as [|n IH]; intros k c w Hk Hc; [done|].
  pose proof (check_at_same_instant clientIp t w k c Hip Hk Hc) as Hstep.
  cbn [repeat answers]. destruct k as [|k'].
  - destruct Hstep as [-> Hc']. rewrite (IH 0%nat c _ ltac:(lia) Hc').
    rewrite !Nat.min_0_r, !Nat.sub_0_r. reflexivity.
  - destruct Hstep as [-> Hc']. rewrite (IH k' (c + 1) _ ltac:(lia) Hc').
    reflexivity.
Qed.

(** X4.  A burst: of [n] checks made at one clock reading for a client the
    store does not know, the first sixty are allowed and every later one is
    denied with a retry hint of one second. *)
Theorem burst_admits_exactly_sixty (clientIp : string) (w : MemWorld) (t : Z)
    (n : nat) :
  clientIp <> "" ->
  unknown_client clientIp w ->
  answers clientIp (repeat t n) w =
    repeat (Ok (mkLimit true None)) (Nat.min n 60) ++
    repeat (Ok (mkLimit false (Some 1))) (n - 60).
Proof.
  intros Hip Hu. destruct n as [|n]; [done|].
  cbn [repeat answers].
  destruct (first_check_unknown clientIp t w Hip Hu) as [-> Hc].
  rewrite (burst_from clientIp t n Hip 59%nat 1 _ ltac:(lia) Hc).
  change (Nat.min (S n) 60) with (S (Nat.min n 59)).
  change (S n - 60)%nat with (n - 59)%nat. reflexivity.
Qed.

Lemma ratelimit_key_inj (a b : string) :
  "ratelimit:" +:+ a = "ratelimit:" +:+ b -> a = b.
Proof. intros H. cbn in H. by injection H. Qed.

(** X5.  Buckets are per client: a check for one client leaves the entry of
    every other client as it was, and never touches the metadata cache. *)
Theorem check_leaves_other_clients_alone (a b : string) (t : Z) (w : MemWorld) :
  a <> b ->
  entries (snd (check_at a t w)) !! ("ratelimit:" +:+ b)
  = entries w !! ("ratelimit:" +:+ b) /\
  cache (snd (check_at a t w)) = cache w.
Proof.
  intros Hab. destruct a as [|ch a']; [done|].
  set (a := String ch a') in *. assert (Hip : a <> "") by done.
  set (stored := live t (entries w !! ("ratelimit:" +:+ a))).
  assert (Hget : kv_get mem_kv ("ratelimit:" +:+ a)
                        (world (mkMachine (set_clock t w) [])) =
                 (Ok stored, set_clock t w)) by reflexivity.
  destruct (read_state t stored) as [s0|] eqn:Hread.
  - unfold check_at.
    rewrite (checkLimit_run mem_platform _ _ _ _ _ _ Hip Hget Hread).
    simpl. split; [|done]. rewrite lookup_insert_ne; [done|].
    intros Heq. by apply Hab, ratelimit_key_inj.
  - unfold check_at, checkLimit, bind, try_catch, Date_now, call.
    cbn [truthy_string negb a]. cbn [world trace kv_get mem_kv].
    fold a. change (mem_get ("ratelimit:" +:+ a) (set_clock t w))
      with (@Ok (option RateText) stored, set_clock t w).
    destruct stored as [[s| |]|]; try discriminate. done.
Qed.

(** * Further properties of [getClientIp] *)

Lemma truthy_string_spec (s : string) : truthy_string s = true <-> s <> "".
Proof. destruct s; simpl; split; congruence. Qed.

(** X6.  The client IP is empty in one case only: no usable
    [CF-Connecting-IP], and a non-empty [X-Forwarded-For] whose first entry
    is blank.  Every other request gets a non-empty key for its bucket. *)
Theorem getClientIp_empty_iff (request : Request) :
  getClientIp request = "" <->
  truthy_header (headers_get request "CF-Connecting-IP") = false /\
  exists xff,
    headers_get request "X-Forwarded-For" = Some xff /\ xff <> "" /\
    trim (hd "" (split "," xff)) = "".
Proof.
  unfold getClientIp.
  destruct (headers_get request "CF-Connecting-IP") as [[|c cf]|]; simpl.
  2:{ split; [discriminate | by intros [? _]]. }
  all: destruct (headers_get request "X-Forwarded-For") as [[|x xff]|]; simpl.
  all: try (split; [intros H; split; [done|]; by eexists | by intros [_ (? & [= <-] & _ & ?)]]).
  all: destruct (headers_get request "X-Real-IP") as [[|r rip]|]; simpl.
  all: split; [discriminate | by intros [_ (? & [= <-] & ? & _)] || by intros [_ (? & ? & _)]].
Qed.

Lemma split_hd_no_sep (sep : ascii) (s : string) :
  has_char sep (hd "" (split sep s)) = false.
Proof.
  induction s as [|c r IH]; simpl; [done|].
  destruct (Ascii.eqb c sep) eqn:Hc; [done|].
  pose proof (split_nonempty sep r).
  destruct (split sep r) as [|h t]; [done|]. simpl in *. by rewrite Hc, IH.
Qed.

Lemma trimStart_no_char (a : ascii) (s : string) :
  has_char a s = false -> has_char a (trimStart s) = false.
Proof.
  induction s as [|c r IH]; simpl; [done|]. intros H.
  apply orb_false_iff in H as [H1 H2].
  destruct (is_js_space c); [by apply IH | simpl; by rewrite H1, H2].
Qed.

Lemma rev_onto_has_char (a : ascii) (s acc : string) :
  has_char a (string_rev_onto s acc) = has_char a s || has_char a acc.
Proof.
  revert acc. induction s as [|c r IH]; intros acc; simpl; [done|].
  rewrite IH. simpl. by destruct (Ascii.eqb c a), (has_char a r), (has_char a acc).
Qed.

Lemma trim_no_char (a : ascii) (s : string) :
  has_char a s = false -> has_char a (trim s) = false.
Proof.
  intros H. unfold trim, trimEnd, string_rev.
  rewrite rev_onto_has_char, orb_false_r. apply trimStart_no_char.
  rewrite rev_onto_has_char, orb_false_r. by apply trimStart_no_char.
Qed.

Lemma append_cons (x : ascii) (a b : string) :
  String x a +:+ b = String x (a +:+ b).
Proof. reflexivity. Qed.

Lemma append_assoc (a b c : string) : (a +:+ b) +:+ c = a +:+ (b +:+ c).
Proof.
  induction a as [|x a IH]; [done|]. rewrite !append_cons. by f_equal.
Qed.

Lemma append_empty_r (a : string) : a +:+ "" = a.
Proof. induction a as [|x a IH]; [done|]. rewrite append_cons. by f_equal. Qed.

Lemma rev_onto_append (s acc acc' : string) :
  string_rev_onto s (acc +:+ acc') = string_rev_onto s acc +:+ acc'.
Proof.
  revert acc. induction s as [|c r IH]; intros acc; simpl; [done|].
  by rewrite <- IH, append_cons.
Qed.

Lemma rev_onto_app (s acc : string) :
  string_rev_onto s acc = string_rev s +:+ acc.
Proof. unfold string_rev. by rewrite <- rev_onto_append. Qed.

Lemma string_rev_app (a b : string) :
  string_rev (a +:+ b) = string_rev b +:+ string_rev a.
Proof.
  induction a as [|c a IH].
  - change ("" +:+ b) with b. change (string_rev "") with "".
    by rewrite append_empty_r.
  - rewrite append_cons.
    unfold string_rev at 1 3. simpl.
    rewrite (rev_onto_app (a +:+ b)), (rev_onto_app a), IH.
    by rewrite append_assoc.
Qed.

Lemma string_rev_involutive (s : string) : string_rev (string_rev s) = s.
Proof.
  induction s as [|c r IH]; [done|].
  unfold string_rev at 2. simpl. rewrite rev_onto_app, string_rev_app, IH.
  reflexivity.
Qed.

Lemma trimStart_idempotent (s : string) : trimStart (trimStart s) = trimStart s.
Proof.
  induction s as [|c r IH]; simpl; [done|].
  destruct (is_js_space c) eqn:Hc; [done|]. simpl. by rewrite Hc.
Qed.

Lemma trimStart_keeps_last (x : string) (c : ascii) :
  is_js_space c = false ->
  exists x', trimStart (x +:+ String c "") = x' +:+ String c "".
Proof.
  intros Hc. induction x as [|d x IH].
  - change ("" +:+ String c "") with (String c ""). simpl. rewrite Hc. by exists "".
  - rewrite append_cons. simpl.
    destruct (is_js_space d); [done|]. by exists (String d x).
Qed.

(** [trim] leaves nothing to trim at either end. *)
Lemma trim_is_trimmed (s : string) :
  trimStart (trim s) = trim s /\ trimEnd (trim s) = trim s.
Proof.
  split.
  - unfold trim. pose proof (trimStart_idempotent s) as Hid.
    destruct (trimStart s) as [|c y] eqn:Hy; [done|].
    assert (Hc : is_js_space c = false).
    { simpl in Hid. destruct (is_js_space c) eqn:Hc; [|done].
      exfalso. assert (Hlen : (String.length (trimStart y) <= String.length y)%nat).
      { clear. induction y as [|d y IH]; simpl; [lia|].
        destruct (is_js_space d); simpl; lia. }
      rewrite Hid in Hlen. simpl in Hlen. lia. }
    assert (Hrev : string_rev (String c y) = string_rev y +:+ String c "").
    { unfold string_rev at 1. simpl. apply rev_onto_app. }
    unfold trimEnd. rewrite Hrev.
    destruct (trimStart_keeps_last (string_rev y) c Hc) as [x' ->].
    rewrite string_rev_app. change (string_rev (String c "")) with (String c "").
    rewrite append_cons. simpl. by rewrite Hc.
  - unfold trim, trimEnd. by rewrite string_rev_involutive, trimStart_idempotent.
Qed.

(** X7.  When the client IP comes from [X-Forwarded-For], it is the first
    entry only, without the whitespace around it: it holds no comma and
    nothing is left to trim at either end. *)
Theorem forwarded_ip_is_first_entry_trimmed (request : Request) (xff : string) :
  truthy_header (headers_get request "CF-Connecting-IP") = false ->
  headers_get request "X-Forwarded-For" = Some xff ->
  xff <> "" ->
  getClientIp request = trim (hd "" (split "," xff)) /\
  has_char "," (getClientIp request) = false /\
  trimStart (getClientIp request) = getClientIp request /\
  trimEnd (getClientIp request) = getClientIp request.
Proof.
  intros Hcf Hxff Hne.
  assert (Hip : getClientIp request = trim (hd "" (split "," xff))).
  { unfold getClientIp. rewrite Hcf, Hxff. simpl.
    by rewrite (proj2 (truthy_string_spec xff) Hne). }
  rewrite Hip. split; [done|]. split.
  - apply trim_no_char, split_hd_no_sep.
  - apply trim_is_trimmed.
Qed.

(** * Further properties of the bot detector *)

Lemma toLowerCase_app (a b : string) :
  toLowerCase (a +:+ b) = toLowerCase a +:+ toLowerCase b.
Proof.
  induction a as [|c a IH]; [done|].
  rewrite append_cons. simpl. by rewrite IH.
Qed.

Lemma toLowerCase_empty (s : string) : toLowerCase s = "" <-> s = "".
Proof. destruct s; simpl; split; congruence. Qed.

(** X8.  Classification does not see letter case: two user agents with the
    same lower-case form are classified alike. *)
Theorem isSocialMediaBot_ignores_case (a b : string) :
  toLowerCase a = toLowerCase b ->
  isSocialMediaBot (Some a) = isSocialMediaBot (Some b).
Proof.
  intros Hab. unfold isSocialMediaBot.
  destruct a as [|x a], b as [|y b]; try discriminate; [done|].
  cbn [truthy_string negb]. by rewrite Hab.
Qed.

(** X9.  A signature is found wherever it stands: a user agent classified as
    a bot stays one when text is put before or after it. *)
Theorem isSocialMediaBot_embedding (ua before after : string) :
  isSocialMediaBot (Some ua) = true ->
  isSocialMediaBot (Some (before +:+ ua +:+ after)) = true.
Proof.
  unfold isSocialMediaBot. destruct ua as [|c ua]; [discriminate|].
  cbn [truthy_string negb]. intros Hbot.
  assert (Hne : truthy_string (before +:+ String c ua +:+ after) = true).
  { destruct before; reflexivity. }
  rewrite Hne. cbn [negb].
  apply existsb_exists in Hbot as (pattern & Hin & Hinc).
  apply existsb_exists. exists pattern. split; [done|].
  apply includes_spec in Hinc as (pre & post & Hlow).
  apply includes_spec. rewrite !toLowerCase_app, Hlow.
  exists (toLowerCase before +:+ pre), (post +:+ toLowerCase after).
  by rewrite !append_assoc.
Qed.

(** * Further properties of the metadata cache *)

Section FetcherMore.
Context {W : Type} (P : Platform W).

(** X10.  One call makes at most one upstream call and at most one cache
    write.  Its external calls are, in this order: the cache read when a
    cache is bound; then possibly the upstream call; then possibly a write
    of truthy metadata under the same key with a TTL of 86400 seconds.
    Nothing else is called, and falsy metadata is never written. *)
Theorem fetchAndCacheMetadata_calls (env : Env W) (musicUrl : JsVal) (id : string)
    (config : Config) (m : Machine W) :
  let after := trace (snd (fetchAndCacheMetadata P musicUrl id config env m)) in
  let read := cache_read_events env id in
  after = trace m ++ read \/
  after = trace m ++ read ++ [upstream_event config musicUrl] \/
  exists metadata now,
    truthy_json metadata = true /\ SONG_CACHE env <> None /\
    after = trace m ++ read ++
            [upstream_event config musicUrl;
             EvPutCache ("metadata:" +:+ id) (mkCached metadata now) 86400].
Proof.
  cbv zeta. unfold fetchAndCacheMetadata, cache_read_events, bind.
  assert (Hnet : forall m1 : Machine W,
    let after := trace (snd (fetch_from_api P musicUrl ("metadata:" +:+ id) config env m1)) in
    after = trace m1 ++ [upstream_event config musicUrl] \/
    exists metadata now,
      truthy_json metadata = true /\ SONG_CACHE env <> None /\
      after = trace m1 ++ [upstream_event config musicUrl;
                           EvPutCache ("metadata:" +:+ id) (mkCached metadata now) 86400]).
  { intros m1. cbv zeta. rewrite fetch_from_api_run. cbv zeta.
    fold (upstream_event config musicUrl).
    destruct (fetch P _ _ _) as [[response|] w1]; [|by left].
    destruct (ok response); [|by left].
    destruct (json response) as [metadata|]; [|by left].
    destruct (SONG_CACHE env) as [kv|] eqn:Henv; [|by left].
    destruct (truthy_json metadata) eqn:Htruthy; [|by left].
    right. exists metadata, (date_now P w1). split; [done|]. split; [done|].
    destruct (kv_put kv _ _ _ _) as [[[]|] w2]; simpl; by rewrite <- app_assoc. }
  destruct (SONG_CACHE env) as [kv|] eqn:Henv.
  - destruct (kv_get kv ("metadata:" +:+ id) (world m)) as [[cached|] w1] eqn:Hget.
    + rewrite (cache_lookup_run P _ _ _ _ _ _ Henv Hget).
      destruct (match cached with Some _ => _ | None => _ end).
      * left. reflexivity.
      * destruct (Hnet (mkMachine w1 (trace m ++ [EvGet ("metadata:" +:+ id)])))
          as [-> | (metadata & now & ? & ? & ->)]; simpl.
        -- right. left. by rewrite <- app_assoc.
        -- right. right. exists metadata, now. by rewrite <- app_assoc.
    + left. unfold cache_lookup, bind, call. rewrite Henv, Hget. reflexivity.
  - unfold cache_lookup. rewrite Henv. cbn [ret].
    destruct (Hnet m) as [-> | (metadata & now & ? & ? & ->)]; simpl.
    + right. by left.
    + right. right. by exists metadata, now.
Qed.

End FetcherMore.

(** X11.  What is fetched is served from the cache afterwards.  After a call
    that missed the cache and got truthy metadata from a 2xx answer, at a
    non-zero clock reading [T], any call for the same identifier at a reading
    [t'] with [t' - T < 86_400_000] answers that metadata with no upstream
    call, whatever music URL and configuration it is given: the cache is
    keyed by the identifier alone. *)
Theorem fetched_metadata_is_served_from_cache (w : MemWorld)
    (musicUrl musicUrl' : JsVal) (id : string) (config config' : Config)
    (code : Z) (metadata : Json) (t' : Z) :
  clock w <> 0 ->
  live (clock w) (cache w !! ("metadata:" +:+ id)) = None ->
  upstream w (api_url config musicUrl) = Ok (mkResponse true code (Ok metadata)) ->
  truthy_json metadata = true ->
  t' - clock w < 86400000 ->
  let w1 := world (snd (fetchAndCacheMetadata mem_platform musicUrl id config
                          mem_env (mkMachine w []))) in
  fetchAndCacheMetadata mem_platform musicUrl' id config' mem_env
                        (mkMachine (set_clock t' w1) [])
  = (Ok metadata, mkMachine (set_clock t' w1) [EvGet ("metadata:" +:+ id)]).
Proof.
  intros Hclock Hmiss Hup Htruthy Hfresh.
  assert (Hfirst : world (snd (fetchAndCacheMetadata mem_platform musicUrl id config
                                 mem_env (mkMachine w []))) =
                   mkMem (clock w) (entries w)
                         (<["metadata:" +:+ id :=
                              (mkCached metadata (clock w), clock w + 86400 * 1000)]>
                          (cache w))
                         (upstream w)).
  { unfold fetchAndCacheMetadata, bind.
    assert (Hget : kv_get cache_kv ("metadata:" +:+ id) (world (mkMachine w [])) =
                   (Ok None, w)).
    { simpl. unfold cache_get. by rewrite Hmiss. }
    rewrite (cache_lookup_run mem_platform _ mem_env cache_kv _ _ _ eq_refl Hget).
    rewrite fetch_from_api_run. cbv zeta.
    cbn [fetch mem_platform world]. rewrite Hup.
    cbn [ok json SONG_CACHE mem_env]. rewrite Htruthy. reflexivity. }
  cbv zeta. rewrite Hfirst. unfold fetchAndCacheMetadata, bind.
  set (w1 := mkMem _ _ _ _).
  assert (Hget : kv_get cache_kv ("metadata:" +:+ id)
                        (world (mkMachine (set_clock t' w1) [])) =
                 (Ok (Some (mkCached metadata (clock w))), set_clock t' w1)).
  { simpl. unfold cache_get. simpl. rewrite lookup_insert_eq. simpl.
    destruct (Z.ltb_spec t' (clock w + 86400 * 1000)); [done | lia]. }
  rewrite (cache_lookup_run mem_platform _ mem_env cache_kv _ _ _ eq_refl Hget).
  cbn [timestamp data date_now mem_platform].
  destruct (Z.eqb_spec (clock w) 0); [done|].
  change (clock (set_clock t' w1)) with t'.
  destruct (Z.ltb_spec (t' - clock w) 86400000); [|lia].
  reflexivity.
Qed.

(** * Further properties of the share-link handler *)

(** X12.  The type and the id never choose the host: every URL that
    [reconstructMusicUrl] answers begins with one of seven fixed
    [https://] prefixes. *)
Theorem reconstructMusicUrl_fixed_hosts (platform type id url : string) :
  reconstructMusicUrl platform type id = Some (VStr url) ->
  exists prefix, In prefix url_prefixes /\ startsWith url prefix = true.
Proof.
  rewrite reconstructMusicUrl_spec. unfold canonical_url. cbv zeta.
  assert (Hpre : forall p rest, startsWith (p +:+ rest) p = true).
  { intros p rest. apply startsWith_spec. by exists rest. }
  repeat match goal with
         | |- context [String.eqb ?k ?x] =>
           destruct (String.eqb k x);
           [intros [= <-]; eexists; split; [|apply Hpre]; simpl; tauto|]
         end.
  by destruct (existsb _ _).
Qed.

Section HandlerMore.
Context {W : Type} (P : Platform W).
Context (getErrorPage : string -> string).
Context (bot human : JsVal -> Json -> Config -> Response).

(** X13.  A link that does not decode to a music URL is answered with status
    400 before anything is read or fetched: the machine is left as it was. *)
Theorem undecodable_link_is_400 (pathname : string) (request : Request)
    (config : Config) (env : Env W) (m : Machine W) :
  decode (substring_from 3 pathname) = None ->
  exists body,
    handleShareLink P getErrorPage bot human pathname request config env m
    = (Ok (mkHttp 400 body), m).
Proof.
  unfold decode, handleShareLink.
  destruct (decode_block (substring_from 3 pathname)) as [| p | [u|]];
    intros H; try discriminate; by eexists.
Qed.

(** X14.  Without a cache, a link that decodes is answered 404 when the
    upstream call throws or answers with a non-2xx status, after that single
    call. *)
Theorem failed_upstream_is_404 (pathname : string) (request : Request)
    (config : Config) (env : Env W) (m : Machine W) (musicUrl : JsVal) :
  decode (substring_from 3 pathname) = Some musicUrl ->
  SONG_CACHE env = None ->
  match fetch P (api_url config musicUrl) WORKER_USER_AGENT (world m) with
  | (Throw, _) => True
  | (Ok response, _) => ok response = false
  end ->
  exists body w1,
    handleShareLink P getErrorPage bot human pathname request config env m
    = (Ok (mkHttp 404 body),
       mkMachine w1 (trace m ++ [EvFetch (api_url config musicUrl) WORKER_USER_AGENT])).
Proof.
  unfold decode, handleShareLink. intros Hdec Henv Hfail.
  destruct (decode_block (substring_from 3 pathname)) as [| p | [u|]];
    try discriminate.
  injection Hdec as ->. unfold bind, fetchAndCacheMetadata, bind, cache_lookup.
  rewrite Henv. cbn [ret]. rewrite fetch_from_api_run. cbv zeta.
  destruct (fetch P _ _ _) as [[response|] w1]; [|by eexists _, _].
  rewrite Hfail. by eexists _, _.
Qed.

End HandlerMore.

(** X15.  A link whose metadata is in the cache is rendered from it, for bots
    and for everyone else, without an upstream call: the page is the
    renderer's, chosen by the classification of the user agent, and the only
    external call is the cache read. *)
Theorem cached_link_is_rendered_from_cache (getErrorPage : string -> string)
    (bot human : JsVal -> Json -> Config -> Response)
    (pathname : string) (request : Request) (config : Config) (w : MemWorld)
    (musicUrl : JsVal) (c : CachedMetadata) :
  decode (substring_from 3 pathname) = Some musicUrl ->
  live (clock w) (cache w !! ("metadata:" +:+ substring_from 3 pathname)) = Some c ->
  timestamp c <> 0 ->
  clock w - timestamp c < 86400000 ->
  truthy_json (data c) = true ->
  handleShareLink mem_platform getErrorPage bot human pathname request config
                  mem_env (mkMachine w [])
  = (Ok (if isSocialMediaBot (Some (from_option id "" (headers_get request "User-Agent")))
         then bot musicUrl (data c) config
         else human musicUrl (data c) config),
     mkMachine w [EvGet ("metadata:" +:+ substring_from 3 pathname)]).
Proof.
  unfold decode, handleShareLink. intros Hdec Hlive Hts Hfresh Htruthy.
  destruct (decode_block (substring_from 3 pathname)) as [| p | [u|]];
    try discriminate.
  injection Hdec as ->. unfold bind at 1. unfold fetchAndCacheMetadata, bind.
  assert (Hget : kv_get cache_kv ("metadata:" +:+ substring_from 3 pathname)
                        (world (mkMachine w [])) = (Ok (Some c), w)).
  { cbn [kv_get cache_kv world]. unfold cache_get. by rewrite Hlive. }
  rewrite (cache_lookup_run mem_platform _ mem_env cache_kv _ _ _ eq_refl Hget).
  destruct (Z.eqb_spec (timestamp c) 0); [done|].
  cbn [date_now mem_platform].
  destruct (Z.ltb_spec (clock w - timestamp c) 86400000); [|lia].
  cbn [negb andb ret]. rewrite Htruthy. cbn [negb].
  by destruct (isSocialMediaBot _).
Qed.

Lemma repeat_string_length (n : nat) (c : ascii) :
  String.length (string_of_list_ascii (repeat c n)) = n.
Proof. by rewrite string_length_of_list, repeat_length. Qed.

Lemma string_length_append (a b : string) :
  String.length (a +:+ b) = (String.length a + String.length b)%nat.
Proof.
  induction a as [|c a IH]; [done|]. rewrite append_cons. simpl. by rewrite IH.
Qed.

(** X16.  Padding is optional and harmless: a segment already padded to a
    multiple of four is left as it is, so a link decodes the same with or
    without its trailing [=]. *)
Theorem padding_is_idempotent (segment : string) :
  pad4 (pad4 segment) = pad4 segment /\
  decode (pad4 segment) = decode segment.
Proof.
  assert (Hid : pad4 (pad4 segment) = pad4 segment).
  { unfold pad4 at 1.
    assert (Hlen : (String.length (pad4 segment) mod 4 = 0)%nat).
    { unfold pad4. rewrite string_length_append, repeat_string_length.
      pose proof (Nat.mod_upper_bound (String.length segment) 4 ltac:(done)) as Hlt.
      pose proof (Nat.div_mod_eq (String.length segment) 4) as Hdm.
      set (r := (String.length segment mod 4)%nat) in *.
      set (q := (String.length segment / 4)%nat) in *.
      rewrite Hdm.
      destruct r as [|[|[|[|r]]]]; try lia.
      - change ((4 - 0) mod 4)%nat with 0%nat.
        replace (4 * q + 0 + 0)%nat with (q * 4)%nat by lia.
        by rewrite Nat.Div0.mod_mul.
      - change ((4 - 1) mod 4)%nat with 3%nat.
        replace (4 * q + 1 + 3)%nat with ((q + 1) * 4)%nat by lia.
        by rewrite Nat.Div0.mod_mul.
      - change ((4 - 2) mod 4)%nat with 2%nat.
        replace (4 * q + 2 + 2)%nat with ((q + 1) * 4)%nat by lia.
        by rewrite Nat.Div0.mod_mul.
      - change ((4 - 3) mod 4)%nat with 1%nat.
        replace (4 * q + 3 + 1)%nat with ((q + 1) * 4)%nat by lia.
        by rewrite Nat.Div0.mod_mul. }
    rewrite Hlen. change ((4 - 0) mod 4)%nat with 0%nat. simpl.
    by rewrite append_empty_r. }
  split; [done|]. unfold decode, decode_block. by rewrite Hid.
Qed.

Lemma sextets_of_chars_foreign (c : ascii) (l : list ascii) :
  In c l -> sextet_of_char c = None -> sextets_of_chars l = None.
Proof.
  intros Hin Hc. induction l as [|x l IH]; [done|]. simpl.
  destruct Hin as [-> | Hin]; [by rewrite Hc|].
  rewrite (IH Hin). by destruct (sextet_of_char x).
Qed.

Lemma strip_padding_keeps (c : ascii) (l : list ascii) :
  In c l -> c <> "="%char -> In c (strip_padding l).
Proof.
  intros Hin Hc. unfold strip_padding.
  assert (Hrev : In c (rev l)) by (by apply in_rev in Hin).
  destruct (rev l) as [|x [|y r]] eqn:Hl; [done| |].
  - destruct (Ascii.eqb_spec x "="); [|by destruct x as [[] [] [] [] [] [] [] []]].
    subst x. by destruct Hrev.
  - assert (Hcases : (x = "="%char /\ y = "="%char) \/
                     (x = "="%char /\ y <> "="%char) \/ x <> "="%char).
    { destruct (Ascii.eqb_spec x "="), (Ascii.eqb_spec y "="); auto. }
    destruct Hcases as [[-> ->] | [[-> Hy] | Hx]].
    + apply in_rev. destruct Hrev as [? | [? | ?]]; [done | done |].
      by rewrite rev_involutive.
    + assert (Hgoal : In c (rev (y :: r))).
      { apply in_rev. rewrite rev_involutive. destruct Hrev as [? | ?]; [done|done]. }
      by destruct y as [[] [] [] [] [] [] [] []].
    + by destruct x as [[] [] [] [] [] [] [] []].
Qed.

Lemma has_char_In (c : ascii) (s : string) :
  has_char c s = true -> In c (list_ascii_of_string s).
Proof.
  induction s as [|x s IH]; simpl; [done|].
  intros H. apply orb_true_iff in H as [H | H].
  - left. by apply Ascii.eqb_eq in H.
  - right. by apply IH.
Qed.

Lemma list_of_append (a b : string) :
  list_ascii_of_string (a +:+ b) = list_ascii_of_string a ++ list_ascii_of_string b.
Proof.
  induction a as [|c a IH]; [done|]. rewrite append_cons. simpl. by rewrite IH.
Qed.

(** A character that is neither whitespace nor [=] and stands for no sextet
    makes [atob] throw on the padded, translated segment. *)
Lemma segment_text_foreign (segment : string) (c : ascii) :
  has_char c segment = true ->
  is_ascii_whitespace c = false ->
  c <> "="%char ->
  sextet_of_char (from_url_safe c) = None ->
  segment_text segment = Throw.
Proof.
  intros Hin Hws Heq Hforeign.
  assert (Hc : from_url_safe c = c).
  { unfold from_url_safe in *.
    destruct (Ascii.eqb_spec c "-") as [-> | ?]; [discriminate|].
    destruct (Ascii.eqb_spec c "_") as [-> | ?]; [discriminate|]. done. }
  rewrite Hc in Hforeign.
  unfold segment_text.
  rewrite <- (string_of_list_ascii_of_string (pad4 segment)).
  rewrite !replace_all_list, map_map. fold from_url_safe.
  change (fun x => from_url_safe x) with from_url_safe.
  unfold atob. rewrite list_ascii_of_string_of_list_ascii.
  set (raw := map from_url_safe (list_ascii_of_string (pad4 segment))).
  assert (Hraw : In c raw).
  { subst raw. rewrite <- Hc. apply in_map. unfold pad4.
    rewrite list_of_append. apply in_or_app. left. by apply has_char_In. }
  set (d := List.filter (fun x => negb (is_ascii_whitespace x)) raw).
  assert (Hd : In c d).
  { subst d. apply filter_In. split; [done | by rewrite Hws]. }
  set (d' := if (length d mod 4 =? 0)%nat then strip_padding d else d).
  assert (Hd' : In c d').
  { subst d'. destruct (_ =? _)%nat; [by apply strip_padding_keeps | done]. }
  destruct (_ =? 1)%nat; [done|].
  by rewrite (sextets_of_chars_foreign c d' Hd' Hforeign).
Qed.

Section HandlerRejects.
Context {W : Type} (P : Platform W).
Context (getErrorPage : string -> string).
Context (bot human : JsVal -> Json -> Config -> Response).

(** X17.  A segment holding a character outside the Base64 alphabets (not
    whitespace, not [=], and no letter, digit, [+], [/], [-] or [_]) is
    answered 400 with the "Invalid share link format." page, before anything
    is read or fetched. *)
Theorem foreign_character_is_400 (pathname : string) (request : Request)
    (config : Config) (env : Env W) (m : Machine W) (c : ascii) :
  has_char c (substring_from 3 pathname) = true ->
  is_ascii_whitespace c = false ->
  c <> "="%char ->
  sextet_of_char (from_url_safe c) = None ->
  handleShareLink P getErrorPage bot human pathname request config env m
  = (Ok (mkHttp 400 (getErrorPage "Invalid share link format.")), m).
Proof.
  intros Hin Hws Heq Hforeign.
  unfold handleShareLink, decode_block.
  fold (segment_text (substring_from 3 pathname)).
  by rewrite (segment_text_foreign _ c Hin Hws Heq Hforeign).
Qed.

End HandlerRejects.

(** * Properties of the HTML escaper *)

Lemma has_char_app (a : ascii) (s t : string) :
  has_char a (s +:+ t) = has_char a s || has_char a t.
Proof.
  induction s as [|c s IH]; [done|]. rewrite append_cons. simpl.
  by rewrite IH, orb_assoc.
Qed.

Lemma escape_char_clean (c : ascii) :
  has_char "<" (escape_char c) = false /\ has_char ">" (escape_char c) = false /\
  has_char "034" (escape_char c) = false /\ has_char "'" (escape_char c) = false.
Proof. destruct c as [[] [] [] [] [] [] [] []]; repeat split; reflexivity. Qed.

(** X18.  Escaped text holds no angle bracket, no double quote (character 34)
    and no apostrophe, whatever the input. *)
Theorem escapeHtml_output_is_inert (text : option string) :
  has_char "<" (escapeHtml text) = false /\
  has_char ">" (escapeHtml text) = false /\
  has_char "034" (escapeHtml text) = false /\
  has_char "'" (escapeHtml text) = false.
Proof.
  destruct text as [str|]; [|done]. simpl.
  induction str as [|c r IH]; [done|]. simpl. rewrite !has_char_app.
  destruct (escape_char_clean c) as (-> & -> & -> & ->).
  destruct IH as (-> & -> & -> & ->). done.
Qed.

Lemma unescape_escape (c : ascii) (r : string) :
  unescape_head (escape_char c +:+ r) = Some (c, r).
Proof. destruct c as [[] [] [] [] [] [] [] []]; reflexivity. Qed.

(** X19.  Escaping loses nothing: two texts with the same escaped form are
    the same text. *)
Theorem escapeHtml_injective (a b : string) :
  escapeHtml (Some a) = escapeHtml (Some b) -> a = b.
Proof.
  simpl. revert b. induction a as [|c a IH]; intros [|d b] Heq; simpl in Heq.
  - done.
  - apply (f_equal unescape_head) in Heq. by rewrite unescape_escape in Heq.
  - apply (f_equal unescape_head) in Heq. by rewrite unescape_escape in Heq.
  - apply (f_equal unescape_head) in Heq. rewrite !unescape_escape in Heq.
    injection Heq as -> Hrest. by rewrite (IH b Hrest).
Qed.

(** X20.  Escaping works character by character: the escaped form of a
    concatenation is the concatenation of the escaped forms, and a text with
    none of the five special characters is left as it is. *)
Theorem escapeHtml_distributes (a b : string) :
  escapeHtml (Some (a +:+ b)) = escapeHtml (Some a) +:+ escapeHtml (Some b) /\
  (has_char "<" a = false -> has_char ">" a = false -> has_char "&" a = false ->
   has_char "034" a = false -> has_char "'" a = false ->
   escapeHtml (Some a) = a).
Proof.
  simpl. split.
  - induction a as [|c a IH]; [done|]. rewrite append_cons. simpl.
    by rewrite IH, append_assoc.
  - induction a as [|c a IH]; [done|]. simpl. intros H1 H2 H3 H4 H5.
    apply orb_false_iff in H1 as [H1 H1'], H2 as [H2 H2'], H3 as [H3 H3'],
      H4 as [H4 H4'], H5 as [H5 H5'].
    unfold escape_char. rewrite H1, H2, H3, H4, H5.
    rewrite append_cons. by rewrite (IH H1' H2' H3' H4' H5').
Qed.

(** * Properties of the worker's routing *)

Section WorkerFacts.
Context {W : Type} (P : Platform W).
Context (getConfig : Env W -> Config).
Context (getErrorPage : string -> string).
Context (rateLimitPage : Z -> string).
Context (bot human : JsVal -> Json -> Config -> Response).
Context (H : Handlers W).

Local Notation fetch := (worker_fetch P getConfig getErrorPage rateLimitPage bot human H).
Local Notation route' := (route P getConfig getErrorPage rateLimitPage bot human H).
Local Notation dispatch' := (dispatch P getErrorPage bot human H).

(** A denial of the limiter always carries a delay of one second. *)
Lemma checkLimit_denial clientIp kv (m : Machine W) r :
  fst (checkLimit P clientIp kv m) = Ok r -> allowed r = false ->
  retryAfter r = Some 1.
Proof.
  destruct kv as [kv|]; [|by intros [= <-]].
  unfold checkLimit. destruct (truthy_string clientIp); simpl; [|by intros [= <-]].
  unfold bind, try_catch, Date_now, call; simpl.
  destruct (kv_get kv _ _) as [[[t|]|] w1]; simpl; try by intros [= <-].
  - destruct (truthy_text t); simpl.
    + destruct t; simpl; try (by intros [= <-]).
      destruct (1 <=? _); simpl;
        destruct (kv_put kv _ _ _ _) as [[[]|] w2]; simpl; by intros [= <-].
    + destruct (1 <=? _); simpl;
        destruct (kv_put kv _ _ _ _) as [[[]|] w2]; simpl; by intros [= <-].
  - destruct (1 <=? _); simpl;
      destruct (kv_put kv _ _ _ _) as [[[]|] w2]; simpl; by intros [= <-].
Qed.

(** A path behind the limiter is none of the twelve paths served before it. *)
Lemma rate_limited_not_exempt pathname :
  rate_limited pathname = true ->
  forall p, In p ["/health"; "/privacy"; "/privacy-app"; "/ads.txt"; "/app-ads.txt";
                  "/.well-known/assetlinks.json";
                  "/.well-known/apple-app-site-association";
                  "/about"; "/contact"; "/faq"; "/how-it-works"; "/features"] ->
  String.eqb pathname p = false.
Proof.
  unfold rate_limited. rewrite !orb_true_iff, !startsWith_spec, String.eqb_eq.
  intros [[[post ->] | [post ->]] | ->] p Hp; simpl in Hp;
    repeat (destruct Hp as [<- | Hp]; [reflexivity|]); done.
Qed.

(** What the [try] block does on a path behind the limiter. *)
Lemma route_rate_limited incoming env (m : Machine W) :
  rate_limited (in_pathname incoming) = true ->
  route' incoming env m =
    match RATE_LIMIT env with
    | Some kv =>
      match checkLimit P (getClientIp (in_request incoming)) (Some kv) m with
      | (Ok r, m1) =>
        if allowed r then (Ok (dispatch' incoming (getConfig env) env), m1)
        else (Ok (Answer (createRateLimitResponse rateLimitPage (retryAfter_or_60 r))), m1)
      | (Throw, m1) => (Throw, m1)
      end
    | None => (Ok (dispatch' incoming (getConfig env) env), m)
    end.
Proof.
  intros Hlim. unfold route.
  rewrite !(rate_limited_not_exempt _ Hlim) by (simpl; auto 20).
  unfold rate_limited in Hlim. rewrite Hlim. unfold bind, ret.
  destruct (RATE_LIMIT env) as [kv|]; [|done].
  destruct (checkLimit P _ (Some kv) m) as [[r|] m1]; [|done].
  by destruct (allowed r).
Qed.

(** X21.  A request on a path behind the limiter that the limiter denies is
    answered 429 with the page for a delay of one second, and nothing runs
    after the limiter's check: the fallback of 60 seconds is never taken. *)
Theorem denied_request_is_answered_429 incoming env kv (m : Machine W) r :
  rate_limited (in_pathname incoming) = true ->
  RATE_LIMIT env = Some kv ->
  fst (checkLimit P (getClientIp (in_request incoming)) (Some kv) m) = Ok r ->
  allowed r = false ->
  fetch incoming env m =
    (Ok (mkHttp 429 (rateLimitPage 1)),
     snd (checkLimit P (getClientIp (in_request incoming)) (Some kv) m)).
Proof.
  intros Hlim Henv Hcheck Hdenied.
  pose proof (checkLimit_denial _ _ _ _ Hcheck Hdenied) as Hretry.
  unfold worker_fetch, bind, try_catch. rewrite (route_rate_limited _ _ _ Hlim), Henv.
  destruct (checkLimit P _ (Some kv) m) as [[r'|] m1]; simpl in *; [|done].
  injection Hcheck as ->. rewrite Hdenied. simpl.
  unfold createRateLimitResponse, retryAfter_or_60. by rewrite Hretry.
Qed.

(** X22.  The worker fails open too: when the limiter's store throws on the
    read, a request on a path behind the limiter is routed as if the limiter
    had let it pass. *)
Theorem worker_fails_open incoming env kv (m : Machine W) :
  rate_limited (in_pathname incoming) = true ->
  RATE_LIMIT env = Some kv ->
  fst (kv_get kv ("ratelimit:" +:+ getClientIp (in_request incoming)) (world m)) = Throw ->
  fst (route' incoming env m) = Ok (dispatch' incoming (getConfig env) env).
Proof.
  intros Hlim Henv Hget. rewrite (route_rate_limited _ _ _ Hlim), Henv.
  unfold checkLimit. destruct (truthy_string _); simpl; [|done].
  unfold bind, try_catch, Date_now, call; simpl.
  by destruct (kv_get kv _ _) as [[st|] w1]; [discriminate|].
Qed.

(** X23.  The promise of a handler leaves the [try] block without being
    awaited: when the limiter lets a share link pass and the metadata cache
    throws on the read, [fetch] throws; the page of status 500 is not made. *)
Theorem share_link_cache_failure_escapes_worker incoming env ckv musicUrl
    (m : Machine W) r :
  let clientIp := getClientIp (in_request incoming) in
  let segment := substring_from 3 (in_pathname incoming) in
  startsWith (in_pathname incoming) "/s/" = true ->
  in_method incoming <> "OPTIONS" ->
  fst (checkLimit P clientIp (RATE_LIMIT env) m) = Ok r ->
  allowed r = true ->
  decode segment = Some musicUrl ->
  SONG_CACHE env = Some ckv ->
  fst (kv_get ckv ("metadata:" +:+ segment)
              (world (snd (checkLimit P clientIp (RATE_LIMIT env) m)))) = Throw ->
  fst (fetch incoming env m) = Throw.
Proof.
  intros clientIp segment Hpath Hmethod Hcheck Hallowed Hdecode Hcache Hget.
  assert (Hlim : rate_limited (in_pathname incoming) = true)
    by (unfold rate_limited; by rewrite Hpath).
  assert (Hdispatch : dispatch' incoming (getConfig env) env =
            Promise (handleShareLink P getErrorPage bot human (in_pathname incoming)
                       (in_request incoming) (getConfig env) env)).
  { unfold dispatch. apply String.eqb_neq in Hmethod. rewrite Hmethod, Hpath.
    apply startsWith_spec in Hpath as [post ->]. reflexivity. }
  assert (Hroute : route' incoming env m =
            (Ok (dispatch' incoming (getConfig env) env),
             snd (checkLimit P clientIp (RATE_LIMIT env) m))).
  { rewrite (route_rate_limited _ _ _ Hlim). fold clientIp.
    destruct (RATE_LIMIT env) as [kv|]; [|reflexivity].
    destruct (checkLimit P clientIp (Some kv) m) as [[r'|] m1]; simpl in *; [|done].
    injection Hcheck as ->. by rewrite Hallowed. }
  unfold worker_fetch, bind, try_catch. rewrite Hroute, Hdispatch.
  set (m1 := snd (checkLimit P clientIp (RATE_LIMIT env) m)) in *.
  unfold handleShareLink. fold segment.
  unfold decode in Hdecode. destruct (decode_block segment) as [| |[u|]]; try discriminate.
  injection Hdecode as ->.
  unfold bind, fetchAndCacheMetadata, cache_lookup, bind, call. rewrite Hcache.
  by destruct (kv_get ckv _ (world m1)) as [[cached|] w1]; [discriminate|].
Qed.

(** X24.  A path that is not behind the limiter is routed without a call:
    the [try] block leaves the machine as it found it and throws nothing,
    whatever the limiter's store holds. *)
Theorem other_paths_skip_the_limiter incoming env (m : Machine W) :
  rate_limited (in_pathname incoming) = false ->
  exists routed, route' incoming env m = (Ok routed, m).
Proof.
  unfold rate_limited. intros Hlim. unfold route. rewrite Hlim.
  repeat (match goal with
          | |- context [String.eqb (in_pathname incoming) ?p] =>
            destruct (String.eqb (in_pathname incoming) p); [by eexists|]
          end).
  by eexists.
Qed.

(** A share link that the limiter lets pass, with a method other than
    OPTIONS, is answered by [handleShareLink], run on the machine the limiter
    left. *)
Lemma share_link_reaches_handler incoming env (m : Machine W) r :
  startsWith (in_pathname incoming) "/s/" = true ->
  in_method incoming <> "OPTIONS" ->
  fst (checkLimit P (getClientIp (in_request incoming)) (RATE_LIMIT env) m) = Ok r ->
  allowed r = true ->
  fetch incoming env m =
    handleShareLink P getErrorPage bot human (in_pathname incoming)
                    (in_request incoming) (getConfig env) env
                    (snd (checkLimit P (getClientIp (in_request incoming))
                                     (RATE_LIMIT env) m)).
Proof.
  intros Hpath Hmethod Hcheck Hallowed.
  assert (Hlim : rate_limited (in_pathname incoming) = true)
    by (unfold rate_limited; by rewrite Hpath).
  unfold worker_fetch, bind, try_catch. rewrite (route_rate_limited _ _ _ Hlim).
  assert (Hdispatch : dispatch' incoming (getConfig env) env =
            Promise (handleShareLink P getErrorPage bot human (in_pathname incoming)
                       (in_request incoming) (getConfig env) env)).
  { unfold dispatch. apply String.eqb_neq in Hmethod. rewrite Hmethod, Hpath.
    apply startsWith_spec in Hpath as [post ->]. reflexivity. }
  rewrite Hdispatch.
  destruct (RATE_LIMIT env) as [kv|]; [|reflexivity].
  destruct (checkLimit P _ (Some kv) m) as [[r'|] m1]; simpl in *; [|done].
  injection Hcheck as ->. by rewrite Hallowed.
Qed.

(** C8, amended.  A GET of a share link (any method but OPTIONS) that the
    limiter lets pass and whose segment stands for [p:t:i], with [p] free of
    colons, not supported and not a member of [Object.prototype], is answered
    by the worker with status 400; nothing is read from the cache or asked of
    the upstream: the machine is left as the limiter left it. *)
Theorem unsupported_platform_is_400 incoming env (m : Machine W) r (p t i : string) :
  in_method incoming <> "OPTIONS" ->
  startsWith (in_pathname incoming) "/s/" = true ->
  segment_text (substring_from 3 (in_pathname incoming)) = Ok (triple p t i) ->
  no_colon p ->
  ~ supported p ->
  ~ In (toLowerCase p) Object_prototype_members ->
  fst (checkLimit P (getClientIp (in_request incoming)) (RATE_LIMIT env) m) = Ok r ->
  allowed r = true ->
  exists body,
    fetch incoming env m =
      (Ok (mkHttp 400 body),
       snd (checkLimit P (getClientIp (in_request incoming)) (RATE_LIMIT env) m)).
Proof.
  intros Hmethod Hpath Htext Hp Hsup Hproto Hcheck Hallowed.
  rewrite (share_link_reaches_handler _ _ _ _ Hpath Hmethod Hcheck Hallowed).
  apply (handleShareLink_unsupported P getErrorPage bot human _ _ _ _ _ p t i);
    assumption.
Qed.

End WorkerFacts.

(** C8, as worded, fails: ["/s/Zm9vOnRyYWNrOjEyMw"] stands for
    ["foo:track:123"], and the worker answers the first GET of it from a
    client with status 400, not 404. *)
Lemma unsupported_is_404_counterexample : ~ unsupported_is_404_as_stated.
Proof.
  intros Hstated.
  destruct (Hstated (fun _ => sample_config) id retry_page plain_page plain_page
              named_handlers (incoming_from "1.2.3.4" "GET" "/s/Zm9vOnRyYWNrOjEyMw")
              mem_env empty_world "foo" "track" "123")
    as (body & m' & Hrun);
    [reflexivity | reflexivity | vm_compute; reflexivity | reflexivity | |].
  - unfold supported. simpl. intros Hin.
    repeat (destruct Hin as [Hin | Hin]; [discriminate|]). done.
  - vm_compute in Hrun. discriminate.
Qed.

(** * Properties of the thumbnail check *)

Lemma endsWith_spec s suffix :
  endsWith s suffix = true <-> exists pre, s = pre +:+ suffix.
Proof.
  induction s as [|c s IH]; cbn [endsWith].
  - rewrite orb_false_r, String.eqb_eq. split.
    + intros <-. by exists "".
    + intros [pre Hpre]. destruct pre; [done | discriminate].
  - rewrite orb_true_iff, String.eqb_eq, IH. split.
    + intros [<- | [pre ->]]; [by exists "" | by exists (String c pre)].
    + intros [[|c' pre] Hpre].
      * left. done.
      * right. rewrite append_cons in Hpre. injection Hpre as -> ->. by exists pre.
Qed.

(** X25.  A thumbnail URL is accepted exactly when it is a non-empty string
    that the URL parser accepts, with protocol [https:] and a host that, in
    lower case, is a trusted domain or ends with a dot followed by one. *)
Theorem isValidThumbnailUrl_spec (URL_parse : string -> Result ParsedUrl) (u : string) :
  isValidThumbnailUrl URL_parse (Some u) = true <->
  u <> "" /\
  exists parsed domain,
    URL_parse u = Ok parsed /\ protocol parsed = "https:" /\
    In domain TRUSTED_THUMBNAIL_DOMAINS /\
    (toLowerCase (hostname parsed) = domain \/
     exists sub, toLowerCase (hostname parsed) = sub +:+ "." +:+ domain).
Proof.
  unfold isValidThumbnailUrl. split.
  - destruct (truthy_string u) eqn:Hu; cbn [negb]; [|done].
    apply truthy_string_spec in Hu.
    destruct (URL_parse u) as [parsed|]; [|done].
    destruct (String.eqb_spec (protocol parsed) "https:") as [Hp|]; cbn [negb]; [|done].
    intros Hex. apply existsb_exists in Hex as (domain & Hin & Hmatch).
    split; [done|]. exists parsed, domain. repeat split; try done.
    apply orb_true_iff in Hmatch as [Heq | Hends].
    + left. by apply String.eqb_eq.
    + right. by apply endsWith_spec.
  - intros (Hu & parsed & domain & -> & Hp & Hin & Hhost).
    apply truthy_string_spec in Hu. rewrite Hu. cbn [negb].
    rewrite Hp. cbn [negb String.eqb]. change ("https:" =? "https:")%string with true. cbn [negb]. apply existsb_exists. exists domain. split; [done|].
    apply orb_true_iff. destruct Hhost as [Heq | Hsub].
    + left. by apply String.eqb_eq.
    + right. by apply endsWith_spec.
Qed.

(** * The further properties at concrete inputs *)

Lemma admissions_bounded_for_unknown_client_witness :
  count_passed "1.2.3.4" [1000; 1000; 2500] empty_world
  <= 60 + (final 1000 [1000; 2500] - 1000) / 1000.
Proof.
  apply (admissions_bounded_for_unknown_client "1.2.3.4" empty_world 1000 [1000; 2500]).
  - discriminate.
  - reflexivity.
  - simpl. lia.
Defined.

Lemma admissions_bounded_for_known_client_witness :
  count_passed "1.2.3.4" [500; 1500; 1500] drained_world
  <= 61 + (final 500 [1500; 1500] - 500) / 1000.
Proof.
  apply (admissions_bounded_for_known_client "1.2.3.4" drained_world 500 [1500; 1500]).
  - discriminate.
  - exists (mkState 0 0 60), 120000. split; [reflexivity|]. vm_compute.
    repeat split; discriminate.
  - simpl. lia.
Defined.

Lemma retry_after_one_second_is_allowed_witness :
  fst (check_at "1.2.3.4" 500 drained_world) = Ok (mkLimit false (Some 1)) /\
  fst (check_at "1.2.3.4" 1500 (snd (check_at "1.2.3.4" 500 drained_world)))
  = Ok (mkLimit true None).
Proof.
  split; [reflexivity|].
  apply (retry_after_one_second_is_allowed "1.2.3.4" drained_world 500 1500).
  - discriminate.
  - exists (mkState 0 0 60), 120000. split; [reflexivity|]. vm_compute.
    repeat split; discriminate.
  - reflexivity.
  - lia.
Defined.

Lemma burst_admits_exactly_sixty_witness :
  answers "1.2.3.4" (repeat 1000 62) empty_world =
    repeat (Ok (mkLimit true None)) 60 ++ repeat (Ok (mkLimit false (Some 1))) 2.
Proof.
  apply (burst_admits_exactly_sixty "1.2.3.4" empty_world 1000 62).
  - discriminate.
  - reflexivity.
Defined.

Lemma check_leaves_other_clients_alone_witness :
  entries (snd (check_at "5.6.7.8" 1000 drained_world)) !! "ratelimit:1.2.3.4"
  = entries drained_world !! "ratelimit:1.2.3.4" /\
  cache (snd (check_at "5.6.7.8" 1000 drained_world)) = cache drained_world.
Proof.
  apply (check_leaves_other_clients_alone "5.6.7.8" "1.2.3.4" 1000 drained_world).
  discriminate.
Defined.

Lemma getClientIp_empty_iff_witness :
  getClientIp (forwarded_request " ,1.2.3.4") = "".
Proof.
  apply (proj2 (getClientIp_empty_iff (forwarded_request " ,1.2.3.4"))).
  split; [reflexivity|]. exists " ,1.2.3.4".
  split; [reflexivity|]. split; [discriminate | reflexivity].
Defined.

Lemma forwarded_ip_is_first_entry_trimmed_witness :
  getClientIp (forwarded_request " 1.2.3.4 , 5.6.7.8") = "1.2.3.4" /\
  has_char "," (getClientIp (forwarded_request " 1.2.3.4 , 5.6.7.8")) = false.
Proof.
  destruct (forwarded_ip_is_first_entry_trimmed
              (forwarded_request " 1.2.3.4 , 5.6.7.8") " 1.2.3.4 , 5.6.7.8")
    as (Hip & Hcomma & _).
  - reflexivity.
  - reflexivity.
  - discriminate.
  - split; [rewrite Hip; reflexivity | exact Hcomma].
Defined.

Lemma isSocialMediaBot_ignores_case_witness :
  isSocialMediaBot (Some "Twitterbot/1.0") = isSocialMediaBot (Some "TWITTERBOT/1.0").
Proof.
  apply (isSocialMediaBot_ignores_case "Twitterbot/1.0" "TWITTERBOT/1.0").
  reflexivity.
Defined.

Lemma isSocialMediaBot_embedding_witness :
  isSocialMediaBot (Some ("Mozilla/5.0 (compatible; " +:+ "Discordbot" +:+ "/2.0)")) = true.
Proof.
  apply (isSocialMediaBot_embedding "Discordbot" "Mozilla/5.0 (compatible; " "/2.0)").
  reflexivity.
Defined.

Lemma fetched_metadata_is_served_from_cache_witness :
  let w1 := world (snd (fetchAndCacheMetadata mem_platform spotify_track "abc"
                          sample_config mem_env (mkMachine first_visit_world []))) in
  fetchAndCacheMetadata mem_platform spotify_track "abc" sample_config mem_env
                        (mkMachine (set_clock 5000 w1) [])
  = (Ok (JStr "cached"), mkMachine (set_clock 5000 w1) [EvGet "metadata:abc"]).
Proof.
  apply (fetched_metadata_is_served_from_cache first_visit_world spotify_track
           spotify_track "abc" sample_config sample_config 200 (JStr "cached") 5000).
  - discriminate.
  - reflexivity.
  - reflexivity.
  - reflexivity.
  - simpl. lia.
Defined.

Lemma reconstructMusicUrl_fixed_hosts_witness :
  exists prefix,
    In prefix url_prefixes /\
    startsWith "https://open.spotify.com/track/123" prefix = true.
Proof.
  apply (reconstructMusicUrl_fixed_hosts "spotify" "track" "123").
  reflexivity.
Defined.

Lemma undecodable_link_is_400_witness :
  exists body,
    handleShareLink mem_platform id plain_page plain_page "/s/spotify" no_headers
                    sample_config mem_env (mkMachine empty_world [])
    = (Ok (mkHttp 400 body), mkMachine empty_world []).
Proof.
  apply (undecodable_link_is_400 mem_platform id plain_page plain_page "/s/spotify"
           no_headers sample_config mem_env (mkMachine empty_world [])).
  vm_compute. reflexivity.
Defined.

Lemma failed_upstream_is_404_witness :
  exists body w1,
    handleShareLink mem_platform id plain_page plain_page ("/s/" +:+ spotify_segment)
                    no_headers sample_config (mkEnv None None) (mkMachine empty_world [])
    = (Ok (mkHttp 404 body),
       mkMachine w1 [EvFetch (api_url sample_config spotify_track) WORKER_USER_AGENT]).
Proof.
  apply (failed_upstream_is_404 mem_platform id plain_page plain_page
           ("/s/" +:+ spotify_segment) no_headers sample_config (mkEnv None None)
           (mkMachine empty_world []) spotify_track).
  - vm_compute. reflexivity.
  - reflexivity.
  - exact I.
Defined.

Lemma cached_link_is_rendered_from_cache_witness :
  handleShareLink mem_platform id plain_page plain_page ("/s/" +:+ spotify_segment)
                  no_headers sample_config mem_env (mkMachine cached_link_world [])
  = (Ok (plain_page spotify_track (JStr "cached") sample_config),
     mkMachine cached_link_world [EvGet ("metadata:" +:+ spotify_segment)]).
Proof.
  apply (cached_link_is_rendered_from_cache id plain_page plain_page
           ("/s/" +:+ spotify_segment) no_headers sample_config cached_link_world
           spotify_track (mkCached (JStr "cached") 1000)).
  - vm_compute. reflexivity.
  - vm_compute. reflexivity.
  - discriminate.
  - simpl. lia.
  - reflexivity.
Defined.

Lemma foreign_character_is_400_witness :
  handleShareLink mem_platform id plain_page plain_page "/s/ab!d" no_headers
                  sample_config mem_env (mkMachine empty_world [])
  = (Ok (mkHttp 400 "Invalid share link format."), mkMachine empty_world []).
Proof.
  apply (foreign_character_is_400 mem_platform id plain_page plain_page "/s/ab!d"
           no_headers sample_config mem_env (mkMachine empty_world []) "!"%char).
  - reflexivity.
  - reflexivity.
  - discriminate.
  - reflexivity.
Defined.

Lemma escapeHtml_injective_witness : "<b>" = "<b>".
Proof. apply (escapeHtml_injective "<b>" "<b>"). reflexivity. Defined.

Lemma escapeHtml_distributes_witness : escapeHtml (Some "abc") = "abc".
Proof. apply (proj2 (escapeHtml_distributes "abc" "")); reflexivity. Defined.

Lemma denied_request_is_answered_429_witness :
  fst (worker_fetch mem_platform (fun _ => sample_config) id retry_page plain_page
                    plain_page named_handlers
                    (incoming_from "1.2.3.4" "GET" ("/s/" +:+ spotify_segment)) mem_env
                    (mkMachine (set_clock 500 drained_world) []))
  = Ok (mkHttp 429 "retry in 1s").
Proof.
  pose proof (denied_request_is_answered_429 mem_platform (fun _ => sample_config) id
                retry_page plain_page plain_page named_handlers
                (incoming_from "1.2.3.4" "GET" ("/s/" +:+ spotify_segment)) mem_env mem_kv
                (mkMachine (set_clock 500 drained_world) [])
                (mkLimit false (Some 1))) as Hdenied.
  rewrite Hdenied; reflexivity.
Defined.

Lemma worker_fails_open_witness :
  fst (route mem_platform (fun _ => sample_config) id retry_page plain_page plain_page
             named_handlers (incoming_from "1.2.3.4" "GET" "/")
             (mkEnv (Some broken_kv) None) (mkMachine empty_world []))
  = Ok (Promise (handleHomepage named_handlers (forwarded_request "1.2.3.4")
                                sample_config)).
Proof.
  apply (worker_fails_open mem_platform (fun _ => sample_config) id retry_page plain_page
           plain_page named_handlers (incoming_from "1.2.3.4" "GET" "/")
           (mkEnv (Some broken_kv) None) broken_kv (mkMachine empty_world [])).
  - reflexivity.
  - reflexivity.
  - reflexivity.
Defined.

Lemma share_link_cache_failure_escapes_worker_witness :
  fst (worker_fetch mem_platform (fun _ => sample_config) id retry_page plain_page
                    plain_page named_handlers
                    (incoming_from "1.2.3.4" "GET" ("/s/" +:+ spotify_segment))
                    (mkEnv (Some mem_kv) (Some broken_kv))
                    (mkMachine (set_clock 1000 empty_world) []))
  = Throw.
Proof.
  apply (share_link_cache_failure_escapes_worker mem_platform (fun _ => sample_config)
           id retry_page plain_page plain_page named_handlers
           (incoming_from "1.2.3.4" "GET" ("/s/" +:+ spotify_segment))
           (mkEnv (Some mem_kv) (Some broken_kv)) broken_kv spotify_track
           (mkMachine (set_clock 1000 empty_world) []) (mkLimit true None)).
  - reflexivity.
  - discriminate.
  - reflexivity.
  - reflexivity.
  - vm_compute. reflexivity.
  - reflexivity.
  - reflexivity.
Defined.

Lemma other_paths_skip_the_limiter_witness :
  exists routed,
    route mem_platform (fun _ => sample_config) id retry_page plain_page plain_page
          named_handlers (incoming_from "1.2.3.4" "GET" "/api/song") mem_env
          (mkMachine drained_world [])
    = (Ok routed, mkMachine drained_world []).
Proof.
  apply (other_paths_skip_the_limiter mem_platform (fun _ => sample_config) id retry_page
           plain_page plain_page named_handlers
           (incoming_from "1.2.3.4" "GET" "/api/song") mem_env
           (mkMachine drained_world [])).
  reflexivity.
Defined.

Lemma isValidThumbnailUrl_spec_witness :
  isValidThumbnailUrl sample_URL (Some "https://i.scdn.co/image/abc") = true.
Proof.
  apply (proj2 (isValidThumbnailUrl_spec sample_URL "https://i.scdn.co/image/abc")).
  split; [discriminate|]. exists (mkUrl "https:" "i.scdn.co"), "i.scdn.co".
  split; [reflexivity|]. split; [reflexivity|]. split; [simpl; tauto|].
  left. reflexivity.
Defined.

Lemma unsupported_platform_is_400_witness :
  segment_text "Zm9vOnRyYWNrOjEyMw" = Ok (triple "foo" "track" "123") /\
  exists body,
    fst (worker_fetch mem_platform (fun _ => sample_config) id retry_page plain_page
                      plain_page named_handlers
                      (incoming_from "1.2.3.4" "GET" "/s/Zm9vOnRyYWNrOjEyMw") mem_env
                      (mkMachine (set_clock 1000 empty_world) []))
    = Ok (mkHttp 400 body).
Proof.
  split; [vm_compute; reflexivity|].
  destruct (unsupported_platform_is_400 mem_platform (fun _ => sample_config) id
              retry_page plain_page plain_page named_handlers
              (incoming_from "1.2.3.4" "GET" "/s/Zm9vOnRyYWNrOjEyMw") mem_env
              (mkMachine (set_clock 1000 empty_world) []) (mkLimit true None)
              "foo" "track" "123") as [body Hrun].
  - discriminate.
  - reflexivity.
  - vm_compute. reflexivity.
  - reflexivity.
  - unfold supported. simpl. intros Hin.
    repeat (destruct Hin as [Hin | Hin]; [discriminate|]). exact Hin.
  - simpl. intros Hin.
    repeat (destruct Hin as [Hin | Hin]; [discriminate|]). exact Hin.
  - reflexivity.
  - reflexivity.
  - exists body. rewrite Hrun. reflexivity.
Defined.
